(** * SERPacker: packing parsed SER annotations into the MMOCR format

    A shallow embedding of
    [mmocr/datasets/preparers/packers/ser_packer.py]: the two methods
    [SERPacker.pack_instance] and [SERPacker.add_meta], with the nested
    helper [get_bio_label_list].

    Python dicts are finite maps ([gmap]), Python lists are lists,
    exceptions are the left side of a sum, and the one call of
    [warnings.warn] is recorded in the outcome of [pack_instance].  The
    functions of the runtime and of other modules that the file calls
    ([mmcv.imread], [osp.relpath], [str.upper], the iteration order of
    [set]) are variables of the sections below.  A call of [add_meta] is
    also given as a transition system, in which the iteration order of
    the set is a choice of the runtime. *)

From Stdlib Require Import ZArith.
From stdpp Require Import gmap strings list fin_maps.

Set Warnings "-register-all".
Local Open Scope string_scope.
Local Open Scope list_scope.

(** ** Python values *)

(** The values an annotation dict holds: [None], booleans, integers,
    strings, lists and dicts with string keys.  (Floating-point box
    coordinates are not modelled; a box is a list, and only its emptiness
    is ever inspected.) *)
Inductive pyval : Type :=
| PyNone
| PyBool (b : bool)
| PyInt (n : Z)
| PyStr (s : string)
| PyList (l : list pyval)
| PyDict (d : gmap string pyval).

(** Truth value of a Python object, as [assert] and [or] test it. *)
Definition truthy (v : pyval) : bool :=
  match v with
  | PyNone => false
  | PyBool b => b
  | PyInt n => negb (n =? 0)%Z
  | PyStr s => negb (bool_decide (s = ""))
  | PyList l => negb (bool_decide (length l = 0))
  | PyDict d => negb (bool_decide (size d = 0))
  end.

(** [d.get(k, None)] *)
Definition dict_get (d : gmap string pyval) (k : string) : pyval :=
  default PyNone (d !! k).

(** [k in d] *)
Definition dict_has (d : gmap string pyval) (k : string) : bool :=
  bool_decide (is_Some (d !! k)).

(** [set(...)] raises [TypeError] on lists and dicts. *)
Definition hashable (v : pyval) : bool :=
  match v with
  | PyList _ | PyDict _ => false
  | _ => true
  end.

(** Python's [==] on hashable values: [True == 1] and [False == 0], strings
    by content, [None] only equals [None]. *)
Definition key_eqb (a b : pyval) : bool :=
  match a, b with
  | PyNone, PyNone => true
  | PyStr s, PyStr t => bool_decide (s = t)
  | PyBool x, PyBool y => bool_decide (x = y)
  | PyInt x, PyInt y => (x =? y)%Z
  | PyBool x, PyInt y => (Z.b2z x =? y)%Z
  | PyInt x, PyBool y => (x =? Z.b2z y)%Z
  | _, _ => false
  end.

(** [label == s] for a string literal [s]. *)
Definition eq_str (v : pyval) (s : string) : bool := key_eqb v (PyStr s).

(** The exceptions the two methods can raise. *)
Inductive pyerr : Type :=
| ImreadError
| AssertionError
| KeyError (k : string)
| TypeError
| AttributeError.

(** ** Data of the packer *)

(** The dict [pack_instance] returns.  Its ['instances'] entry is itself a
    dict, from the keys ['texts'], ['boxes'], ['labels'] and possibly
    ['words'] to lists. *)
Record packed_instances : Type := PackedInstances {
  instances : gmap string (list pyval);
  img_path : string;
  height : Z;
  width : Z
}.

(** A computation that may warn and may raise. *)
Record outcome (A : Type) : Type := Outcome {
  warned : list string;
  result : pyerr + A
}.
Arguments Outcome {A} _ _.
Arguments warned {A} _.
Arguments result {A} _.

(** The four lists built by the loop of [pack_instance]. *)
Record builders : Type := Builders {
  texts_per_doc : list pyval;
  boxes_per_doc : list pyval;
  labels_per_doc : list pyval;
  words_per_doc : list pyval
}.

Definition words_warning : string :=
  "Not all instance has `words` key,so final MMOCR format SER instance will not have `words` key".

(** [all(['words' in ins for ins in instances])] *)
Definition all_have_words (anns : list (gmap string pyval)) : bool :=
  forallb (fun ins => dict_has ins "words") anns.

(** [assert text or box or label] *)
Definition instance_ok (ins : gmap string pyval) : bool :=
  truthy (dict_get ins "text") || truthy (dict_get ins "box")
  || truthy (dict_get ins "label").

(** One iteration of [for instance in instances]. *)
Definition pack_step (has_words : bool) (acc : builders)
    (ins : gmap string pyval) : pyerr + builders :=
  let text := dict_get ins "text" in
  let box := dict_get ins "box" in
  let label := dict_get ins "label" in
  if truthy text || truthy box || truthy label then
    inr {| texts_per_doc := texts_per_doc acc ++ [text];
           boxes_per_doc := boxes_per_doc acc ++ [box];
           labels_per_doc := labels_per_doc acc ++ [label];
           words_per_doc :=
             if has_words then words_per_doc acc ++ [dict_get ins "words"]
             else words_per_doc acc |}
  else inl AssertionError.

Fixpoint pack_loop (has_words : bool) (anns : list (gmap string pyval))
    (acc : builders) : pyerr + builders :=
  match anns with
  | [] => inr acc
  | ins :: rest =>
      match pack_step has_words acc ins with
      | inl e => inl e
      | inr acc' => pack_loop has_words rest acc'
      end
  end.

Section Packer.
(** [mmcv.imread] followed by [img.shape[:2]]: the height and width of
    the image at a path, or nothing when the image cannot be read. *)
Variable imread : string -> option (Z * Z).
(** [osp.relpath] *)
Variable relpath : string -> string -> string.
(** [self.data_root] *)
Variable data_root : string.

Definition pack_instance (sample : string * list (gmap string pyval))
    : outcome packed_instances :=
  let '(path, anns) := sample in
  match imread path with
  | None => Outcome [] (inl ImreadError)
  | Some (h, w) =>
      let has_words := all_have_words anns in
      let ws := if has_words then [] else [words_warning] in
      match pack_loop has_words anns (Builders [] [] [] []) with
      | inl e => Outcome ws (inl e)
      | inr acc =>
          let doc :=
            <["labels" := labels_per_doc acc]>
              (<["boxes" := boxes_per_doc acc]>
                 (<["texts" := texts_per_doc acc]> ∅)) in
          Outcome ws
            (inr {| instances :=
                      if has_words
                      then <["words" := words_per_doc acc]> doc
                      else doc;
                    img_path := relpath path data_root;
                    height := h;
                    width := w |})
      end
  end.
End Packer.

(** ** The meta aggregator *)

Record metainfo_t : Type := MetaInfo {
  labels : list pyval;
  id2label : gmap nat string;
  label2id : gmap string nat
}.

Record meta_t : Type := Meta {
  metainfo : metainfo_t;
  data_list : list packed_instances
}.

(** [enumerate(l)] *)
Definition enumerate {A} (l : list A) : list (nat * A) :=
  imap (fun k v => (k, v)) l.

(** A dict comprehension over a list of pairs: entries are stored from left
    to right, so a later pair with the same key replaces an earlier one. *)
Definition dict_of `{Countable K} {V} (kvs : list (K * V)) : gmap K V :=
  foldl (fun m kv => <[kv.1 := kv.2]> m) ∅ kvs.

(** The loop [for s in sample: labels += s['instances']['labels']]. *)
Fixpoint collect_labels (sample : list packed_instances) (acc : list pyval)
    : pyerr + list pyval :=
  match sample with
  | [] => inr acc
  | s :: rest =>
      match instances s !! "labels" with
      | None => inl (KeyError "labels")
      | Some ls => collect_labels rest (acc ++ ls)
      end
  end.

Section Aggregator.
(** [str.upper] *)
Variable str_upper : string -> string.
(** [list(set(l))] on a list of hashable values: the order in which the
    runtime iterates over the set built from [l]. *)
Variable list_set : list pyval -> list pyval.

(** [label.upper()]: only strings have the method. *)
Definition py_upper (label : pyval) : pyerr + string :=
  match label with
  | PyStr s => inr (str_upper s)
  | _ => inl AttributeError
  end.

(** The loop of [get_bio_label_list], from a given [bio_label_list]. *)
Fixpoint bio_loop (lbls : list pyval) (bio_label_list : list string)
    : pyerr + list string :=
  match lbls with
  | [] => inr bio_label_list
  | label :: rest =>
      if eq_str label "other" then bio_loop rest ("O" :: bio_label_list)
      else
        match py_upper label with
        | inl e => inl e
        | inr u => bio_loop rest (bio_label_list ++ ["B-" +:+ u; "I-" +:+ u])
        end
  end.

Definition get_bio_label_list (lbls : list pyval) : pyerr + list string :=
  bio_loop lbls [].

Definition add_meta (sample : list packed_instances) : pyerr + meta_t :=
  match collect_labels sample [] with
  | inl e => inl e
  | inr all_labels =>
      if forallb hashable all_labels then
        let org_label_list := list_set all_labels in
        match get_bio_label_list org_label_list with
        | inl e => inl e
        | inr bio_label_list =>
            inr {| metainfo :=
                     {| labels := org_label_list;
                        id2label := dict_of (enumerate bio_label_list);
                        label2id :=
                          dict_of (prod_swap <$> enumerate bio_label_list) |};
                   data_list := sample |}
        end
      else inl TypeError
  end.
End Aggregator.

(** ** Concrete runtimes, for evaluating the model *)

(** [str.upper] on ASCII strings. *)
Definition ascii_upper_char (c : Ascii.ascii) : Ascii.ascii :=
  let n := Ascii.nat_of_ascii c in
  if (97 <=? n)%nat && (n <=? 122)%nat then Ascii.ascii_of_nat (n - 32)
  else c.

Fixpoint ascii_upper (s : string) : string :=
  match s with
  | EmptyString => EmptyString
  | String c r => String (ascii_upper_char c) (ascii_upper r)
  end.

(** A set that iterates in order of first insertion. *)
Fixpoint first_seen (l : list pyval) (seen : list pyval) : list pyval :=
  match l with
  | [] => seen
  | x :: r =>
      if existsb (key_eqb x) seen then first_seen r seen
      else first_seen r (seen ++ [x])
  end.

Definition insertion_order (l : list pyval) : list pyval := first_seen l [].

(** A set that iterates in the reverse of that order. *)
Definition reverse_order (l : list pyval) : list pyval :=
  rev (insertion_order l).

(** Every image is 100 wide and 200 high. *)
Definition imread_100x200 (path : string) : option (Z * Z) :=
  Some (200%Z, 100%Z).

(** No image can be read. *)
Definition imread_none (path : string) : option (Z * Z) := None.

(** [osp.relpath] when [start] is the current directory ["."]: a relative
    path in normal form is its own path relative to it (on POSIX).  The
    examples call it with such paths and with ["."] as data root only. *)
Definition relpath_id (path start : string) : string := path.

(** ** Examples *)

Definition ins_question : gmap string pyval :=
  <["text" := PyStr "a"]>
    (<["box" := PyList [PyInt 0; PyInt 0; PyInt 1; PyInt 1]]>
       (<["label" := PyStr "question"]> ∅)).

Definition ins_other : gmap string pyval :=
  <["text" := PyStr "b"]>
    (<["box" := PyList [PyInt 1; PyInt 1; PyInt 2; PyInt 2]]>
       (<["label" := PyStr "other"]> ∅)).

(** Neither instance of the two has a ['words'] entry. *)
Definition sample_qo : string * list (gmap string pyval) :=
  ("imgs/x.jpg", [ins_question; ins_other]).

(** An instance with a ['words'] entry and nothing else. *)
Definition ins_words_only : gmap string pyval :=
  <["words" := PyList [PyDict (<["text" := PyStr "a"]> ∅)]]> ∅.

(** An instance with a text, a box, a label and a ['words'] entry. *)
Definition ins_full : gmap string pyval :=
  <["words" := PyList [PyDict (<["text" := PyStr "a"]> ∅)]]> ins_question.

(** An instance with a text and no label. *)
Definition ins_no_label : gmap string pyval := <["text" := PyStr "c"]> ∅.

(** ** Specification vocabulary for [pack_instance] *)

(** The column of one key over the instances: [[ins.get(k) for ins in anns]]. *)
Definition column (k : string) (anns : list (gmap string pyval)) : list pyval :=
  (fun ins => dict_get ins k) <$> anns.

(** [l] has one entry per instance, and entry [i] is the value instance [i]
    has under [k] ([None] when it has none). *)
Definition aligned (k : string) (anns : list (gmap string pyval))
    (l : list pyval) : Prop :=
  length l = length anns /\
  forall i ins, anns !! i = Some ins -> l !! i = Some (dict_get ins k).

(** The reading of the warning as a signal of mixed presence: it is given
    exactly when some instance has a ['words'] entry and some has not. *)
Definition warns_iff_mixed (o : outcome packed_instances)
    (anns : list (gmap string pyval)) : Prop :=
  words_warning ∈ warned o <->
  ~ (forall ins, ins ∈ anns -> is_Some (ins !! "words")) /\
  (exists ins, ins ∈ anns /\ is_Some (ins !! "words")).

(** ** Specification vocabulary for [add_meta] *)

Definition is_str (v : pyval) : bool :=
  match v with
  | PyStr _ => true
  | _ => false
  end.

(** No two entries of the list are equal in Python's sense. *)
Fixpoint key_distinct (l : list pyval) : bool :=
  match l with
  | [] => true
  | x :: r => negb (existsb (key_eqb x) r) && key_distinct r
  end.

(** [r] lists the set built from the hashable values [l]: it holds only
    entries of [l], an equal of every entry of [l], and no two equal
    entries. *)
Definition set_listing (l r : list pyval) : Prop :=
  (forall x, x ∈ r -> x ∈ l) /\
  (forall x, x ∈ l -> exists y, y ∈ r /\ key_eqb x y = true) /\
  key_distinct r = true.

(** What any iteration order of [set] guarantees of [list(set(l))]. *)
Definition set_semantics (list_set : list pyval -> list pyval) : Prop :=
  forall l, forallb hashable l = true -> set_listing l (list_set l).

(** The number of entries equal to ['other']. *)
Fixpoint others (lbls : list pyval) : nat :=
  match lbls with
  | [] => 0
  | v :: r => if eq_str v "other" then S (others r) else others r
  end.

Section Tags.
Variable str_upper : string -> string.

(** The tags a label other than ['other'] appends. *)
Definition label_tags (v : pyval) : list string :=
  match v with
  | PyStr s =>
      if bool_decide (s = "other") then []
      else ["B-" +:+ str_upper s; "I-" +:+ str_upper s]
  | _ => []
  end.

Definition tags_of (lbls : list pyval) : list string :=
  lbls ≫= label_tags.
End Tags.

(** [label2id[id2label[i]] == i] for every id [i]. *)
Definition inverse_maps (m : metainfo_t) : Prop :=
  forall i t, id2label m !! i = Some t -> label2id m !! t = Some i.

(** The ids of [id2label] are exactly the numbers below [n]. *)
Definition contiguous_ids (m : metainfo_t) (n : nat) : Prop :=
  forall i, is_Some (id2label m !! i) <-> i < n.

(** All the labels of the documents, when each has a ['labels'] list. *)
Definition all_labels (sample : list packed_instances) : pyerr + list pyval :=
  collect_labels sample [].

(** Two instances whose labels differ by case only, and the document
    [pack_instance] makes of them. *)
Definition ins_a : gmap string pyval :=
  <["text" := PyStr "x"]> (<["label" := PyStr "a"]> ∅).

Definition ins_A : gmap string pyval :=
  <["text" := PyStr "y"]> (<["label" := PyStr "A"]> ∅).

Definition doc_aA : packed_instances :=
  {| instances :=
       <["labels" := [PyStr "a"; PyStr "A"]]>
         (<["boxes" := [PyNone; PyNone]]>
            (<["texts" := [PyStr "x"; PyStr "y"]]> ∅));
     img_path := "imgs/x.jpg";
     height := 200;
     width := 100 |}.

(** The document of the instances [question] and [other]. *)
Definition doc_qo : packed_instances :=
  {| instances :=
       <["labels" := [PyStr "question"; PyStr "other"]]>
         (<["boxes" := [PyList [PyInt 0; PyInt 0; PyInt 1; PyInt 1];
                        PyList [PyInt 1; PyInt 1; PyInt 2; PyInt 2]]]>
            (<["texts" := [PyStr "a"; PyStr "b"]]> ∅));
     img_path := "imgs/x.jpg";
     height := 200;
     width := 100 |}.

(** A document with a text and no label. *)
Definition doc_no_label : packed_instances :=
  {| instances :=
       <["labels" := [PyNone]]>
         (<["boxes" := [PyNone]]> (<["texts" := [PyStr "c"]]> ∅));
     img_path := "imgs/x.jpg";
     height := 200;
     width := 100 |}.

(** ** The accumulator of [add_meta] as a list object *)

(** The only in-place update of [add_meta] is [labels += ...].  To see what
    it can change, lists live in a store here, and a document reaches its
    ['labels'] list through a location.  Everything else [add_meta] does
    builds new objects. *)
Module Heap.
(** [labels = []]: a new, empty list object. *)
Definition new_list (σ : gmap nat (list pyval))
    : nat * gmap nat (list pyval) :=
  let l := fresh (dom σ) in (l, <[l := []]> σ).

(** [labels += x], for [labels] at [l] and [x] at [r]: the object at [l]
    is extended in place, the object at [r] is read. *)
Definition list_iadd (σ : gmap nat (list pyval)) (l r : nat)
    : option (gmap nat (list pyval)) :=
  match σ !! l, σ !! r with
  | Some a, Some b => Some (<[l := a ++ b]> σ)
  | _, _ => None
  end.

(** [for s in sample: labels += s['instances']['labels']], over the
    locations of the label lists of the documents. *)
Fixpoint collect_loop (σ : gmap nat (list pyval)) (l : nat)
    (refs : list nat) : option (gmap nat (list pyval)) :=
  match refs with
  | [] => Some σ
  | r :: rest =>
      match list_iadd σ l r with
      | Some σ' => collect_loop σ' l rest
      | None => None
      end
  end.

Definition collect_in_place (σ : gmap nat (list pyval)) (refs : list nat)
    : option (nat * gmap nat (list pyval)) :=
  let '(l, σ0) := new_list σ in
  match collect_loop σ0 l refs with
  | Some σ' => Some (l, σ')
  | None => None
  end.

(** The store holds the ['labels'] list of each document of [sample] at
    the location of the same position in [refs]. *)
Definition labels_at (σ : gmap nat (list pyval)) (refs : list nat)
    (sample : list packed_instances) : Prop :=
  Forall2 (fun r s => is_Some (σ !! r) /\ σ !! r = instances s !! "labels")
    refs sample.
End Heap.

(** A document with the one label ['question'], and one with the labels
    ['question'] and ['answer']. *)
Definition doc_q : packed_instances :=
  {| instances :=
       <["labels" := [PyStr "question"]]>
         (<["boxes" := [PyNone]]> (<["texts" := [PyStr "a"]]> ∅));
     img_path := "imgs/q.jpg";
     height := 200;
     width := 100 |}.

Definition doc_qa : packed_instances :=
  {| instances :=
       <["labels" := [PyStr "question"; PyStr "answer"]]>
         (<["boxes" := [PyNone; PyNone]]>
            (<["texts" := [PyStr "a"; PyStr "b"]]> ∅));
     img_path := "imgs/qa.jpg";
     height := 200;
     width := 100 |}.

(** A store with the label lists of [doc_q] and [doc_qa] at 0 and 1. *)
Definition store_q_qa : gmap nat (list pyval) :=
  <[0 := [PyStr "question"]]>
    (<[1 := [PyStr "question"; PyStr "answer"]]> ∅).

(** ** Further vocabulary *)

(** [a + b] when both lists are there. *)
Definition cat_lists (o1 o2 : option (list pyval)) : option (list pyval) :=
  match o1, o2 with
  | Some a, Some b => Some (a ++ b)
  | _, _ => None
  end.

(** A label that is a list, next to a missing one. *)
Definition doc_list_label : packed_instances :=
  {| instances :=
       <["labels" := [PyList [PyStr "question"]; PyNone]]>
         (<["boxes" := [PyNone; PyNone]]>
            (<["texts" := [PyStr "a"; PyStr "b"]]> ∅));
     img_path := "imgs/l.jpg";
     height := 200;
     width := 100 |}.

(** A document without a ['labels'] list. *)
Definition doc_no_labels_key : packed_instances :=
  {| instances := <["texts" := [PyStr "a"]]> ∅;
     img_path := "imgs/k.jpg";
     height := 200;
     width := 100 |}.

(** In [l], every I- tag stands right after the B- tag of the same name,
    and every B- tag right before the I- tag of the same name. *)
Definition paired (l : list string) : Prop :=
  (forall j u, l !! j = Some ("I-" +:+ u) ->
     exists j', j = S j' /\ l !! j' = Some ("B-" +:+ u)) /\
  (forall j u, l !! j = Some ("B-" +:+ u) -> l !! S j = Some ("I-" +:+ u)).

(** The document of an image without instances. *)
Definition doc_empty : packed_instances :=
  {| instances :=
       <["words" := []]>
         (<["labels" := []]> (<["boxes" := []]> (<["texts" := []]> ∅)));
     img_path := "imgs/e.jpg";
     height := 200;
     width := 100 |}.

(** ** The runs of [add_meta] *)

(** A call of [add_meta] as a transition system, one step for each pass
    through a loop body and for each statement between the loops.  The
    program fixes every step but one: the order in which [list(set(labels))]
    lists the set comes from the runtime.  That step is labelled with the
    order the runtime gave; all other steps are silent. *)
Inductive am_state : Type :=
| Collecting (todo : list packed_instances) (acc : list pyval)
| Deduping (acc : list pyval)
| Expanding (org_label_list todo : list pyval) (bio_label_list : list string)
| Returned (m : meta_t)
| Raised (e : pyerr).

Definition final (s : am_state) : Prop :=
  match s with
  | Returned _ | Raised _ => True
  | _ => False
  end.

Definition outcome_state (r : pyerr + meta_t) : am_state :=
  match r with
  | inl e => Raised e
  | inr m => Returned m
  end.

Section Runs.
Variable str_upper : string -> string.
(** The argument of the call. *)
Variable sample : list packed_instances.

Inductive step : am_state -> option (list pyval) -> am_state -> Prop :=
| step_collect s rest acc ls :
    instances s !! "labels" = Some ls ->
    step (Collecting (s :: rest) acc) None (Collecting rest (acc ++ ls))
| step_collect_missing s rest acc :
    instances s !! "labels" = None ->
    step (Collecting (s :: rest) acc) None (Raised (KeyError "labels"))
| step_collected acc :
    step (Collecting [] acc) None (Deduping acc)
| step_unhashable acc :
    forallb hashable acc = false ->
    step (Deduping acc) None (Raised TypeError)
| step_set acc org :
    forallb hashable acc = true ->
    set_listing acc org ->
    step (Deduping acc) (Some org) (Expanding org org [])
| step_other org label rest bio :
    eq_str label "other" = true ->
    step (Expanding org (label :: rest) bio) None
      (Expanding org rest ("O" :: bio))
| step_tag org label rest bio u :
    eq_str label "other" = false ->
    py_upper str_upper label = inr u ->
    step (Expanding org (label :: rest) bio) None
      (Expanding org rest (bio ++ ["B-" +:+ u; "I-" +:+ u]))
| step_no_upper org label rest bio e :
    eq_str label "other" = false ->
    py_upper str_upper label = inl e ->
    step (Expanding org (label :: rest) bio) None (Raised e)
| step_return org bio :
    step (Expanding org [] bio) None
      (Returned
         {| metainfo :=
              {| labels := org;
                 id2label := dict_of (enumerate bio);
                 label2id := dict_of (prod_swap <$> enumerate bio) |};
            data_list := sample |}).

(** Several steps, with the orders the runtime gave on the way. *)
Inductive steps : am_state -> list (list pyval) -> am_state -> Prop :=
| steps_refl s : steps s [] s
| steps_silent s s' s'' tr :
    step s None s' -> steps s' tr s'' -> steps s tr s''
| steps_choice s org s' s'' tr :
    step s (Some org) s' -> steps s' tr s'' -> steps s (org :: tr) s''.

(** A run of [add_meta(sample)]: from the entry of the method to a return
    or a raise. *)
Definition run (tr : list (list pyval)) (out : am_state) : Prop :=
  steps (Collecting sample []) tr out /\ final out.
End Runs.

(** The orders the runtime gives in the run that the function [add_meta]
    describes: none when the run ends before [set(labels)] is listed. *)
Definition trace_of (list_set : list pyval -> list pyval)
    (sample : list packed_instances) : list (list pyval) :=
  match all_labels sample with
  | inr all => if forallb hashable all then [list_set all] else []
  | inl _ => []
  end.

(** ** Facts about [pack_instance] *)

Lemma column_aligned k anns : aligned k anns (column k anns).
Proof.
  split.
  - apply length_fmap.
  - intros i ins Hi. unfold column. rewrite list_lookup_fmap, Hi. reflexivity.
Qed.

Lemma all_have_words_spec anns :
  all_have_words anns = true <->
  forall ins, ins ∈ anns -> is_Some (ins !! "words").
Proof.
  unfold all_have_words. rewrite forallb_forall. split.
  - intros H ins Hin. apply list_elem_of_In in Hin.
    apply H in Hin. unfold dict_has in Hin.
    by apply bool_decide_eq_true in Hin.
  - intros H ins Hin. apply list_elem_of_In in Hin.
    unfold dict_has. apply bool_decide_eq_true. by apply H.
Qed.

Lemma pack_step_ok hw acc ins :
  instance_ok ins = true ->
  pack_step hw acc ins =
    inr {| texts_per_doc := texts_per_doc acc ++ [dict_get ins "text"];
           boxes_per_doc := boxes_per_doc acc ++ [dict_get ins "box"];
           labels_per_doc := labels_per_doc acc ++ [dict_get ins "label"];
           words_per_doc :=
             if hw then words_per_doc acc ++ [dict_get ins "words"]
             else words_per_doc acc |}.
Proof. unfold instance_ok, pack_step. intros ->. reflexivity. Qed.

Lemma pack_step_fail hw acc ins :
  instance_ok ins = false -> pack_step hw acc ins = inl AssertionError.
Proof. unfold instance_ok, pack_step. intros ->. reflexivity. Qed.

(** The loop either stops at the first instance that fails the assertion,
    or extends each builder by the column of its key. *)
Lemma pack_loop_spec hw anns acc :
  pack_loop hw anns acc =
    if forallb instance_ok anns then
      inr {| texts_per_doc := texts_per_doc acc ++ column "text" anns;
             boxes_per_doc := boxes_per_doc acc ++ column "box" anns;
             labels_per_doc := labels_per_doc acc ++ column "label" anns;
             words_per_doc :=
               if hw then words_per_doc acc ++ column "words" anns
               else words_per_doc acc |}
    else inl AssertionError.
Proof.
  revert acc. induction anns as [|ins rest IH]; intros acc.
  - destruct acc as [t b l w]. cbn. rewrite !app_nil_r.
    by destruct hw.
  - cbn [pack_loop forallb]. destruct (instance_ok ins) eqn:Hok.
    + rewrite (pack_step_ok _ _ _ Hok), IH. cbn.
      destruct (forallb instance_ok rest); [|done].
      rewrite <- !app_assoc. by destruct hw; rewrite <- ?app_assoc.
    + by rewrite (pack_step_fail _ _ _ Hok).
Qed.

Lemma forallb_instance_ok anns :
  forallb instance_ok anns = true <->
  forall ins, ins ∈ anns -> instance_ok ins = true.
Proof.
  rewrite forallb_forall. split; intros H ins Hin; apply H;
    by apply list_elem_of_In.
Qed.

Section PackerFacts.
Variable imread : string -> option (Z * Z).
Variable relpath : string -> string -> string.
Variable data_root : string.

(** What [pack_instance] does, case by case. *)
Lemma pack_instance_unreadable path anns :
  imread path = None ->
  pack_instance imread relpath data_root (path, anns)
  = Outcome [] (inl ImreadError).
Proof. intros H. unfold pack_instance. by rewrite H. Qed.

Lemma pack_instance_assert path anns h w :
  imread path = Some (h, w) ->
  forallb instance_ok anns = false ->
  pack_instance imread relpath data_root (path, anns) =
    Outcome (if all_have_words anns then [] else [words_warning])
      (inl AssertionError).
Proof.
  intros Him Hok. unfold pack_instance.
  by rewrite Him, pack_loop_spec, Hok.
Qed.

Lemma pack_instance_packed path anns h w :
  imread path = Some (h, w) ->
  forallb instance_ok anns = true ->
  pack_instance imread relpath data_root (path, anns) =
    Outcome (if all_have_words anns then [] else [words_warning])
      (inr {| instances :=
                let doc :=
                  <["labels" := column "label" anns]>
                    (<["boxes" := column "box" anns]>
                       (<["texts" := column "text" anns]> ∅)) in
                if all_have_words anns
                then <["words" := column "words" anns]> doc
                else doc;
              img_path := relpath path data_root;
              height := h;
              width := w |}).
Proof.
  intros Him Hok. unfold pack_instance.
  rewrite Him, pack_loop_spec, Hok. cbn.
  by destruct (all_have_words anns).
Qed.

(** A returned document comes from a readable image and from instances
    that all pass the assertion. *)
Lemma pack_instance_inr path anns doc :
  result (pack_instance imread relpath data_root (path, anns)) = inr doc ->
  exists h w, imread path = Some (h, w) /\
    forallb instance_ok anns = true.
Proof.
  destruct (imread path) as [[h w]|] eqn:Him.
  - destruct (forallb instance_ok anns) eqn:Hok.
    + eauto.
    + rewrite (pack_instance_assert _ _ _ _ Him Hok). discriminate.
  - rewrite (pack_instance_unreadable _ _ Him). discriminate.
Qed.
(** The lists of a returned document are the columns of the input. *)
Lemma pack_instance_columns path anns doc :
  result (pack_instance imread relpath data_root (path, anns)) = inr doc ->
  instances doc !! "texts" = Some (column "text" anns) /\
  instances doc !! "boxes" = Some (column "box" anns) /\
  instances doc !! "labels" = Some (column "label" anns) /\
  instances doc !! "words" =
    (if all_have_words anns then Some (column "words" anns) else None).
Proof.
  intros Hres.
  destruct (pack_instance_inr _ _ _ Hres) as (h & w & Him & Hok).
  rewrite (pack_instance_packed _ _ _ _ Him Hok) in Hres.
  cbn in Hres. injection Hres as <-. cbn.
  destruct (all_have_words anns); repeat split; by simplify_map_eq.
Qed.

Lemma pack_instance_warned path anns :
  warned (pack_instance imread relpath data_root (path, anns)) =
    match imread path with
    | Some _ => if all_have_words anns then [] else [words_warning]
    | None => []
    end.
Proof.
  unfold pack_instance. destruct (imread path) as [[h w]|]; [|done].
  by destruct (pack_loop _ _ _).
Qed.
End PackerFacts.

Lemma all_have_words_false anns :
  all_have_words anns = false <->
  exists ins, ins ∈ anns /\ ins !! "words" = None.
Proof.
  split.
  - intros H. induction anns as [|a rest IH]; [discriminate|].
    cbn in H. apply andb_false_iff in H as [H|H].
    + exists a. split; [left|]. unfold dict_has in H.
      apply bool_decide_eq_false in H.
      by apply eq_None_not_Some.
    + destruct (IH H) as (ins & Hin & Hn). exists ins. split; [by right|done].
  - intros (ins & Hin & Hn).
    destruct (all_have_words anns) eqn:E; [|done].
    apply all_have_words_spec with (ins := ins) in E; [|done].
    rewrite Hn in E. by destruct E.
Qed.

(** C2: a document returned by [pack_instance] has a ['words'] key exactly
    when every instance of the input has a ['words'] entry, and then the
    list under that key holds, position by position, the ['words'] entry
    of each instance, in input order. *)
Theorem pack_instance_words_iff
    (imread : string -> option (Z * Z)) (relpath : string -> string -> string)
    (data_root path : string) (anns : list (gmap string pyval))
    (doc : packed_instances) :
  result (pack_instance imread relpath data_root (path, anns)) = inr doc ->
  (is_Some (instances doc !! "words") <->
     forall ins, ins ∈ anns -> is_Some (ins !! "words")) /\
  (forall wl, instances doc !! "words" = Some wl ->
     length wl = length anns /\
     forall i ins, anns !! i = Some ins -> wl !! i = ins !! "words").
Proof.
  intros Hres.
  destruct (pack_instance_columns _ _ _ _ _ _ Hres) as (_ & _ & _ & Hw).
  rewrite Hw. destruct (all_have_words anns) eqn:Hall.
  - pose proof (proj1 (all_have_words_spec anns) Hall) as Hevery.
    split; [split; eauto|].
    intros wl [= <-]. split; [apply column_aligned|].
    intros i ins Hi.
    rewrite (proj2 (column_aligned "words" anns) i ins Hi).
    destruct (Hevery ins) as [v Hv]; [by eapply list_elem_of_lookup_2|].
    unfold dict_get. by rewrite Hv.
  - split; [|discriminate].
    split; [by intros [? ?]|].
    intros Hevery. apply all_have_words_spec in Hevery. congruence.
Qed.

Lemma pack_instance_words_iff_witness :
  exists doc,
    result (pack_instance imread_100x200 relpath_id "."
              ("imgs/x.jpg", [ins_full])) = inr doc /\
    (is_Some (instances doc !! "words") <->
       forall ins, ins ∈ [ins_full] -> is_Some (ins !! "words")) /\
    (forall wl, instances doc !! "words" = Some wl ->
       length wl = length [ins_full] /\
       forall i ins, [ins_full] !! i = Some ins -> wl !! i = ins !! "words").
Proof.
  eexists. split; [reflexivity|].
  apply (pack_instance_words_iff imread_100x200 relpath_id "."
           "imgs/x.jpg" [ins_full]).
  reflexivity.
Defined.

(** C3: in a document returned by [pack_instance], the lists under
    ['texts'], ['boxes'] and ['labels'] all have as many entries as the
    input has instances, and so has the list under ['words'] when that
    key is present; entry [i] of each list is the value of instance [i]. *)
Theorem pack_instance_parallel
    (imread : string -> option (Z * Z)) (relpath : string -> string -> string)
    (data_root path : string) (anns : list (gmap string pyval))
    (doc : packed_instances) :
  result (pack_instance imread relpath data_root (path, anns)) = inr doc ->
  exists texts boxes lbls,
    instances doc !! "texts" = Some texts /\
    instances doc !! "boxes" = Some boxes /\
    instances doc !! "labels" = Some lbls /\
    aligned "text" anns texts /\
    aligned "box" anns boxes /\
    aligned "label" anns lbls /\
    length texts = length boxes /\
    length boxes = length lbls /\
    forall wl, instances doc !! "words" = Some wl ->
      aligned "words" anns wl /\ length wl = length lbls.
Proof.
  intros Hres.
  destruct (pack_instance_columns _ _ _ _ _ _ Hres) as (Ht & Hb & Hl & Hw).
  exists (column "text" anns), (column "box" anns), (column "label" anns).
  repeat split; try done; try apply column_aligned.
  - unfold column. by rewrite !length_fmap.
  - unfold column. by rewrite !length_fmap.
  - rewrite Hw in H. destruct (all_have_words anns); [|done].
    injection H as <-. apply column_aligned.
  - rewrite Hw in H. destruct (all_have_words anns); [|done].
    injection H as <-. apply column_aligned.
  - rewrite Hw in H. destruct (all_have_words anns); [|done].
    injection H as <-. unfold column. by rewrite !length_fmap.
Qed.

Lemma pack_instance_parallel_witness :
  exists doc,
    result (pack_instance imread_100x200 relpath_id "." sample_qo)
      = inr doc /\
    instances doc !! "texts" = Some [PyStr "a"; PyStr "b"] /\
    exists texts boxes lbls,
      instances doc !! "texts" = Some texts /\
      instances doc !! "boxes" = Some boxes /\
      instances doc !! "labels" = Some lbls /\
      aligned "text" sample_qo.2 texts /\
      aligned "box" sample_qo.2 boxes /\
      aligned "label" sample_qo.2 lbls /\
      length texts = length boxes /\
      length boxes = length lbls /\
      forall wl, instances doc !! "words" = Some wl ->
        aligned "words" sample_qo.2 wl /\ length wl = length lbls.
Proof.
  eexists. split; [reflexivity|]. split; [reflexivity|].
  apply (pack_instance_parallel imread_100x200 relpath_id "."
           "imgs/x.jpg" sample_qo.2).
  reflexivity.
Defined.

(** C5, as stated, fails: on the two instances [question] and [other] of
    which neither has a ['words'] entry, the warning is given although no
    instance has the entry. *)
Lemma warning_on_uniform_absence :
  ~ warns_iff_mixed
      (pack_instance imread_100x200 relpath_id "." sample_qo) sample_qo.2.
Proof.
  intros [Hmixed _].
  destruct Hmixed as [_ (ins & Hin & Hw)].
  - cbn. left.
  - cbn in Hin. apply list_elem_of_In in Hin.
    destruct Hin as [<- | [<- | []]]; by destruct Hw.
Qed.

(** C5 (amended): the warning is given if and only if the image is readable
    and not every instance has a ['words'] entry, also when none has; no
    other warning is ever given. *)
Theorem pack_instance_warns
    (imread : string -> option (Z * Z)) (relpath : string -> string -> string)
    (data_root path : string) (anns : list (gmap string pyval)) :
  (words_warning ∈ warned (pack_instance imread relpath data_root (path, anns))
   <-> is_Some (imread path) /\
       exists ins, ins ∈ anns /\ ins !! "words" = None) /\
  (forall msg,
     msg ∈ warned (pack_instance imread relpath data_root (path, anns)) ->
     msg = words_warning).
Proof.
  rewrite pack_instance_warned.
  destruct (imread path) as [hw|].
  - destruct (all_have_words anns) eqn:Hall.
    + split.
      * split; [by intros ?%elem_of_nil|].
        intros [_ Hex]. apply all_have_words_false in Hex. congruence.
      * by intros msg ?%elem_of_nil.
    + split.
      * split; [|intros _; apply list_elem_of_singleton; done].
        intros _. split; [eauto|]. by apply all_have_words_false.
      * by intros msg ->%list_elem_of_singleton.
  - split.
    + split; [by intros ?%elem_of_nil|]. by intros [[? ?] _].
    + by intros msg ?%elem_of_nil.
Qed.

(** C6: [pack_instance] returns no document as soon as some instance has
    no truthy ['text'], ['box'] or ['label'] (absent, [None] or empty),
    and with a readable image it then raises [AssertionError]; an instance
    with at least one truthy value of the three passes the check and is
    appended to the builders, an absent field as [None]; and when the
    image is readable and every instance passes, the document holds the
    values of every instance, in input order. *)
Theorem pack_instance_assertion
    (imread : string -> option (Z * Z)) (relpath : string -> string -> string)
    (data_root path : string) (anns : list (gmap string pyval)) :
  ((exists ins, ins ∈ anns /\
      truthy (dict_get ins "text") = false /\
      truthy (dict_get ins "box") = false /\
      truthy (dict_get ins "label") = false) ->
   (forall doc,
      result (pack_instance imread relpath data_root (path, anns))
        ≠ inr doc) /\
   (is_Some (imread path) ->
    result (pack_instance imread relpath data_root (path, anns))
      = inl AssertionError)) /\
  (forall has_words acc ins,
     truthy (dict_get ins "text") = true \/
     truthy (dict_get ins "box") = true \/
     truthy (dict_get ins "label") = true ->
     pack_step has_words acc ins =
       inr {| texts_per_doc :=
                texts_per_doc acc ++ [default PyNone (ins !! "text")];
              boxes_per_doc :=
                boxes_per_doc acc ++ [default PyNone (ins !! "box")];
              labels_per_doc :=
                labels_per_doc acc ++ [default PyNone (ins !! "label")];
              words_per_doc :=
                if has_words
                then words_per_doc acc ++ [default PyNone (ins !! "words")]
                else words_per_doc acc |}) /\
  (is_Some (imread path) ->
   (forall ins, ins ∈ anns ->
      truthy (dict_get ins "text") = true \/
      truthy (dict_get ins "box") = true \/
      truthy (dict_get ins "label") = true) ->
   exists doc,
     result (pack_instance imread relpath data_root (path, anns)) = inr doc /\
     instances doc !! "texts" = Some (column "text" anns) /\
     instances doc !! "boxes" = Some (column "box" anns) /\
     instances doc !! "labels" = Some (column "label" anns)).
Proof.
  split; [|split].
  - intros (ins & Hin & Ht & Hb & Hl).
    assert (forallb instance_ok anns = false) as Hok.
    { destruct (forallb instance_ok anns) eqn:Hok; [|done].
      apply forallb_instance_ok with (ins := ins) in Hok; [|done].
      unfold instance_ok in Hok. by rewrite Ht, Hb, Hl in Hok. }
    split.
    + intros doc Hdoc.
      apply pack_instance_inr in Hdoc as (h & w & _ & Hok'). congruence.
    + intros [[h w] Him].
      by rewrite (pack_instance_assert _ _ _ _ _ _ _ Him Hok).
  - intros hw acc ins Hor. apply pack_step_ok. unfold instance_ok.
    destruct Hor as [-> | [-> | ->]]; by rewrite ?orb_true_r.
  - intros [[h w] Him] Hall.
    assert (forallb instance_ok anns = true) as Hok.
    { apply forallb_instance_ok. intros ins Hin. unfold instance_ok.
      destruct (Hall ins Hin) as [-> | [-> | ->]]; by rewrite ?orb_true_r. }
    rewrite (pack_instance_packed _ _ _ _ _ _ _ Him Hok). cbn.
    eexists. split; [reflexivity|]. cbn.
    destruct (all_have_words anns); repeat split; by simplify_map_eq.
Qed.

Lemma pack_instance_assertion_witness :
  result (pack_instance imread_100x200 relpath_id "."
            ("imgs/x.jpg", [ins_question; ins_words_only]))
    = inl AssertionError /\
  exists doc,
    result (pack_instance imread_100x200 relpath_id "."
              ("imgs/x.jpg", [ins_question; ins_no_label])) = inr doc /\
    instances doc !! "labels" = Some [PyStr "question"; PyNone].
Proof.
  split.
  - destruct (pack_instance_assertion imread_100x200 relpath_id "."
                "imgs/x.jpg" [ins_question; ins_words_only])
      as (Hfail & _ & _).
    destruct Hfail as [_ Herr].
    + exists ins_words_only. split; [|by vm_compute].
      right. left.
    + apply Herr. by eexists.
  - destruct (pack_instance_assertion imread_100x200 relpath_id "."
                "imgs/x.jpg" [ins_question; ins_no_label])
      as (_ & _ & Hall).
    destruct Hall as (doc & Hdoc & _ & _ & Hl).
    + by eexists.
    + intros ins Hin. left. apply list_elem_of_In in Hin.
      destruct Hin as [<- | [<- | []]]; reflexivity.
    + exists doc. split; [done|]. rewrite Hl. reflexivity.
Defined.

(** C10: with a readable image and no instance at all, [pack_instance]
    gives no warning and returns a document whose ['texts'], ['boxes'] and
    ['labels'] are empty and which has a ['words'] key, with an empty
    list. *)
Theorem pack_instance_no_instances
    (imread : string -> option (Z * Z)) (relpath : string -> string -> string)
    (data_root path : string) (h w : Z) :
  imread path = Some (h, w) ->
  pack_instance imread relpath data_root (path, []) =
    Outcome []
      (inr {| instances :=
                <["words" := []]>
                  (<["labels" := []]>
                     (<["boxes" := []]> (<["texts" := []]> ∅)));
              img_path := relpath path data_root;
              height := h;
              width := w |}).
Proof. intros Him. unfold pack_instance. rewrite Him. reflexivity. Qed.

Lemma pack_instance_no_instances_witness :
  exists doc,
    pack_instance imread_100x200 relpath_id "." ("imgs/x.jpg", [])
      = Outcome [] (inr doc) /\
    instances doc !! "texts" = Some [] /\
    instances doc !! "boxes" = Some [] /\
    instances doc !! "labels" = Some [] /\
    instances doc !! "words" = Some [].
Proof.
  eexists. split.
  - apply (pack_instance_no_instances imread_100x200 relpath_id "."
             "imgs/x.jpg" 200 100).
    reflexivity.
  - repeat split; reflexivity.
Defined.

(** ** Facts about the two mappings *)

Lemma enumerate_snoc {A} (l : list A) (x : A) :
  enumerate (l ++ [x]) = enumerate l ++ [(length l, x)].
Proof.
  unfold enumerate. rewrite imap_app. cbn.
  by rewrite Nat.add_0_r.
Qed.

Lemma dict_of_snoc `{Countable K} {V} (kvs : list (K * V)) (k : K) (v : V) :
  dict_of (kvs ++ [(k, v)]) = <[k := v]> (dict_of kvs).
Proof. unfold dict_of. by rewrite foldl_snoc. Qed.

(** [id2label[i]] is entry [i] of the tag list. *)
Lemma id2label_lookup (bio : list string) (i : nat) :
  dict_of (enumerate bio) !! i = bio !! i.
Proof.
  induction bio as [|t bio IH] using rev_ind; [done|].
  rewrite enumerate_snoc, dict_of_snoc.
  destruct (decide (i = length bio)) as [->|Hne].
  - rewrite lookup_insert_eq. by rewrite list_lookup_middle.
  - rewrite lookup_insert_ne by done. rewrite IH.
    destruct (decide (i < length bio)) as [Hlt|Hge].
    + by rewrite lookup_app_l.
    + rewrite !lookup_ge_None_2; [done| |lia].
      rewrite length_app. cbn. lia.
Qed.

(** [label2id[t]] is the last position of [t] in the tag list. *)
Lemma label2id_lookup (bio : list string) (t : string) (i : nat) :
  dict_of (prod_swap <$> enumerate bio) !! t = Some i <->
  bio !! i = Some t /\ forall j, i < j -> bio !! j ≠ Some t.
Proof.
  revert i. induction bio as [|u bio IH] using rev_ind; intros i.
  - cbn. split; [done|]. by intros [? _].
  - rewrite enumerate_snoc, fmap_app. cbn [fmap list_fmap prod_swap].
    cbn. rewrite dict_of_snoc.
    destruct (decide (u = t)) as [->|Hne].
    + rewrite lookup_insert_eq. split.
      * intros [= <-]. split; [by rewrite list_lookup_middle|].
        intros j Hj. rewrite lookup_ge_None_2; [done|].
        rewrite length_app. cbn. lia.
      * intros [Hi Hlast]. f_equal.
        destruct (decide (i = length bio)) as [->|Hi']; [done|].
        assert (i < length bio) as Hlt.
        { apply lookup_lt_Some in Hi. rewrite length_app in Hi.
          cbn in Hi. lia. }
        destruct (Hlast (length bio) Hlt). by rewrite list_lookup_middle.
    + rewrite lookup_insert_ne by done. rewrite IH. split.
      * intros [Hi Hlast]. split.
        { rewrite lookup_app_l; [done|]. by eapply lookup_lt_Some. }
        intros j Hj Hjt. apply lookup_snoc_Some in Hjt as [[Hlt Hjt]|[_ ?]].
        -- by eapply Hlast.
        -- done.
      * intros [Hi Hlast].
        apply lookup_snoc_Some in Hi as [[Hlt Hi]|[_ ?]]; [|done].
        split; [done|]. intros j Hj Hjt. apply (Hlast j Hj).
        rewrite lookup_app_l; [done|]. by eapply lookup_lt_Some.
Qed.

Lemma label2id_sound (bio : list string) (t : string) (i : nat) :
  dict_of (prod_swap <$> enumerate bio) !! t = Some i ->
  dict_of (enumerate bio) !! i = Some t.
Proof.
  intros H. apply label2id_lookup in H as [H _]. by rewrite id2label_lookup.
Qed.

Lemma label2id_NoDup (bio : list string) (t : string) (i : nat) :
  NoDup bio ->
  dict_of (enumerate bio) !! i = Some t ->
  dict_of (prod_swap <$> enumerate bio) !! t = Some i.
Proof.
  intros Hnd Hi. rewrite id2label_lookup in Hi.
  apply label2id_lookup. split; [done|].
  intros j Hj Hjt. pose proof (NoDup_lookup _ _ _ _ Hnd Hi Hjt). lia.
Qed.

(** ** Facts about Python equality and the iteration order of sets *)

Lemma key_eqb_sym a b : key_eqb a b = key_eqb b a.
Proof.
  destruct a, b; cbn; try done.
  - apply bool_decide_ext. naive_solver.
  - apply Z.eqb_sym.
  - apply Z.eqb_sym.
  - apply Z.eqb_sym.
  - apply bool_decide_ext. naive_solver.
Qed.

Lemma key_eqb_refl a : hashable a = true -> key_eqb a a = true.
Proof.
  destruct a; cbn; try done; intros _.
  - by apply bool_decide_eq_true.
  - apply Z.eqb_refl.
  - by apply bool_decide_eq_true.
Qed.

Lemma key_eqb_str a s : key_eqb a (PyStr s) = true <-> a = PyStr s.
Proof.
  destruct a; cbn; try (split; [discriminate|done]).
  rewrite bool_decide_eq_true. split; congruence.
Qed.

Lemma key_eqb_none a : key_eqb PyNone a = true <-> a = PyNone.
Proof. destruct a; cbn; split; try done. Qed.

Lemma existsb_key_eqb x l :
  existsb (key_eqb x) l = true <-> exists y, y ∈ l /\ key_eqb x y = true.
Proof.
  rewrite existsb_exists. split; intros (y & Hin & Hy); exists y;
    (split; [by apply list_elem_of_In|done]).
Qed.

Lemma key_distinct_snoc l x :
  key_distinct l = true -> existsb (key_eqb x) l = false ->
  key_distinct (l ++ [x]) = true.
Proof.
  induction l as [|a l IH]; [done|]. cbn.
  intros [Ha Hl]%andb_true_iff [Hxa Hxl]%orb_false_iff.
  apply andb_true_iff. split; [|by apply IH].
  rewrite existsb_app. cbn. rewrite orb_false_r.
  apply negb_true_iff in Ha. rewrite Ha. cbn.
  by rewrite key_eqb_sym, Hxa.
Qed.

Lemma first_seen_mono l seen x : x ∈ seen -> x ∈ first_seen l seen.
Proof.
  revert seen. induction l as [|a l IH]; intros seen Hx; [done|].
  cbn. destruct (existsb (key_eqb a) seen); apply IH; [done|].
  apply elem_of_app. by left.
Qed.

Lemma first_seen_sound l seen x :
  x ∈ first_seen l seen -> x ∈ seen \/ x ∈ l.
Proof.
  revert seen. induction l as [|a l IH]; intros seen Hx; [by left|].
  cbn in Hx. destruct (existsb (key_eqb a) seen).
  - destruct (IH _ Hx); [by left|right; by right].
  - destruct (IH _ Hx) as [[? | ->%list_elem_of_singleton]%elem_of_app | ?].
    + by left.
    + right. left.
    + right. by right.
Qed.

Lemma first_seen_complete l seen x :
  x ∈ l -> hashable x = true ->
  exists y, y ∈ first_seen l seen /\ key_eqb x y = true.
Proof.
  revert seen. induction l as [|a l IH]; intros seen Hx Hh.
  { by apply elem_of_nil in Hx. }
  cbn. apply elem_of_cons in Hx as [-> | Hx].
  - destruct (existsb (key_eqb a) seen) eqn:Hex.
    + apply existsb_key_eqb in Hex as (y & Hy & Heq).
      exists y. split; [by apply first_seen_mono|done].
    + exists a. split; [|by apply key_eqb_refl].
      apply first_seen_mono, elem_of_app. right. left.
  - destruct (existsb (key_eqb a) seen); by apply IH.
Qed.

Lemma first_seen_distinct l seen :
  key_distinct seen = true -> key_distinct (first_seen l seen) = true.
Proof.
  revert seen. induction l as [|a l IH]; intros seen Hd; [done|].
  cbn. destruct (existsb (key_eqb a) seen) eqn:Hex; apply IH; [done|].
  by apply key_distinct_snoc.
Qed.

(** Iterating in order of first insertion is one of the orders of a set. *)
Lemma insertion_order_set_semantics : set_semantics insertion_order.
Proof.
  intros l Hh. unfold insertion_order. repeat split.
  - intros x Hx. destruct (first_seen_sound _ _ _ Hx) as [Hnil|?]; [|done].
    by apply elem_of_nil in Hnil.
  - intros x Hx. apply first_seen_complete; [done|].
    rewrite forallb_forall in Hh. apply Hh. by apply list_elem_of_In.
  - by apply first_seen_distinct.
Qed.

Lemma key_distinct_cons_str s r :
  key_distinct (PyStr s :: r) = true -> PyStr s ∉ r.
Proof.
  cbn. intros [Hex _]%andb_true_iff Hin.
  apply negb_true_iff in Hex.
  assert (existsb (key_eqb (PyStr s)) r = true) as Hex'; [|congruence].
  apply existsb_key_eqb. exists (PyStr s). split; [done|].
  by apply key_eqb_refl.
Qed.

(** ** Facts about [get_bio_label_list] *)

Lemma eq_str_true v s : eq_str v s = true <-> v = PyStr s.
Proof. apply key_eqb_str. Qed.

Lemma others_zero lbls : PyStr "other" ∉ lbls -> others lbls = 0.
Proof.
  induction lbls as [|v r IH]; [done|].
  intros Hnin. apply not_elem_of_cons in Hnin as [Hv Hr].
  cbn. destruct (eq_str v "other") eqn:E.
  - apply eq_str_true in E. congruence.
  - by apply IH.
Qed.

Lemma others_app l1 l2 : others (l1 ++ l2) = others l1 + others l2.
Proof.
  induction l1 as [|v r IH]; [done|].
  cbn. destruct (eq_str v "other"); cbn; by rewrite IH.
Qed.

Lemma key_distinct_app_r l1 l2 :
  key_distinct (l1 ++ l2) = true -> key_distinct l2 = true.
Proof.
  induction l1 as [|a l1 IH]; [done|].
  cbn. intros [_ ?]%andb_true_iff. by apply IH.
Qed.

Lemma key_distinct_others_split pre post :
  key_distinct (pre ++ PyStr "other" :: post) = true ->
  others pre = 0 /\ others post = 0.
Proof.
  intros Hd. split.
  - apply others_zero. intros Hin.
    clear -Hd Hin. induction pre as [|a pre IH].
    { by apply elem_of_nil in Hin. }
    apply elem_of_cons in Hin as [<- | Hin].
    + apply key_distinct_cons_str in Hd. apply Hd.
      apply elem_of_app. right. left.
    + cbn in Hd. apply andb_true_iff in Hd as [_ Hd]. by apply IH.
  - apply others_zero. apply key_distinct_app_r in Hd.
    by apply key_distinct_cons_str.
Qed.

Section BioFacts.
Variable str_upper : string -> string.

Lemma tags_of_app l1 l2 :
  tags_of str_upper (l1 ++ l2) = tags_of str_upper l1 ++ tags_of str_upper l2.
Proof. unfold tags_of. by rewrite bind_app. Qed.

Lemma tags_of_cons v r :
  tags_of str_upper (v :: r) = label_tags str_upper v ++ tags_of str_upper r.
Proof. done. Qed.

Lemma elem_of_tags_of t lbls :
  t ∈ tags_of str_upper lbls <->
  exists s, PyStr s ∈ lbls /\ s ≠ "other" /\
    (t = "B-" +:+ str_upper s \/ t = "I-" +:+ str_upper s).
Proof.
  unfold tags_of. rewrite list_elem_of_bind. split.
  - intros (v & Ht & Hv).
    destruct v as [| | |s| |]; cbn in Ht; try by apply elem_of_nil in Ht.
    case_bool_decide as Ho; [by apply elem_of_nil in Ht|].
    exists s. split; [done|]. split; [done|].
    apply elem_of_cons in Ht as [-> | Ht]; [by left|].
    apply list_elem_of_singleton in Ht as ->. by right.
  - intros (s & Hs & Ho & Ht).
    exists (PyStr s). split; [|done].
    cbn. rewrite bool_decide_eq_false_2 by done.
    destruct Ht as [-> | ->]; [left|right; left].
Qed.

Lemma O_not_tag lbls : "O" ∉ tags_of str_upper lbls.
Proof.
  intros (s & _ & _ & [H|H])%elem_of_tags_of; discriminate H.
Qed.

(** The loop fails on the first label that is not a string, and otherwise
    puts one ["O"] per ['other'] in front and the tags_of str_upper of the other
    labels behind, in the order of the labels. *)
Lemma bio_loop_spec lbls acc :
  bio_loop str_upper lbls acc =
    if forallb is_str lbls
    then inr (replicate (others lbls) "O" ++ acc ++ tags_of str_upper lbls)
    else inl AttributeError.
Proof.
  revert acc. induction lbls as [|v r IH]; intros acc.
  - cbn. by rewrite app_nil_r.
  - cbn [bio_loop forallb others]. destruct (eq_str v "other") eqn:E.
    + apply eq_str_true in E as ->. cbn [is_str andb].
      rewrite IH. destruct (forallb is_str r); [|done].
      f_equal. rewrite tags_of_cons. cbn [label_tags].
      rewrite bool_decide_eq_true_2 by done.
      by rewrite replicate_S_end, <- !app_assoc.
    + destruct v as [| | |s| |]; try done.
      cbn [py_upper is_str andb]. rewrite IH.
      destruct (forallb is_str r); [|done].
      f_equal. rewrite tags_of_cons. cbn [label_tags].
      rewrite bool_decide_eq_false_2.
      * by rewrite <- !app_assoc.
      * intros ->. by rewrite (proj2 (eq_str_true _ _)) in E.
Qed.

Lemma get_bio_label_list_spec lbls :
  get_bio_label_list str_upper lbls =
    if forallb is_str lbls
    then inr (replicate (others lbls) "O" ++ tags_of str_upper lbls)
    else inl AttributeError.
Proof. unfold get_bio_label_list. by rewrite bio_loop_spec. Qed.

Lemma tags_of_middle pre s post :
  s ≠ "other" ->
  tags_of str_upper (pre ++ PyStr s :: post) =
    tags_of str_upper pre
    ++ ["B-" +:+ str_upper s; "I-" +:+ str_upper s]
    ++ tags_of str_upper post.
Proof.
  intros Hs. rewrite tags_of_app, tags_of_cons. cbn [label_tags].
  by rewrite bool_decide_eq_false_2.
Qed.

Lemma tags_of_other pre post :
  tags_of str_upper (pre ++ PyStr "other" :: post)
  = tags_of str_upper pre ++ tags_of str_upper post.
Proof.
  rewrite tags_of_app, tags_of_cons. cbn [label_tags].
  by rewrite bool_decide_eq_true_2.
Qed.

(** Labels that stay apart when uppercased give tags without repeats. *)
Lemma tags_of_NoDup lbls :
  key_distinct lbls = true ->
  (forall a b, PyStr a ∈ lbls -> PyStr b ∈ lbls ->
     a ≠ "other" -> b ≠ "other" -> str_upper a = str_upper b -> a = b) ->
  NoDup (tags_of str_upper lbls).
Proof.
  induction lbls as [|v r IH]; intros Hd Hinj; [constructor|].
  rewrite tags_of_cons.
  assert (NoDup (tags_of str_upper r)) as Hr.
  { apply IH.
    - cbn in Hd. by apply andb_true_iff in Hd as [_ ?].
    - intros a b Ha Hb. apply Hinj; by right. }
  destruct v as [| | |s| |]; cbn [label_tags]; try done.
  case_bool_decide as Ho; [done|].
  pose proof (key_distinct_cons_str _ _ Hd) as Hnin.
  assert (forall t, t = "B-" +:+ str_upper s \/ t = "I-" +:+ str_upper s ->
                    t ∉ tags_of str_upper r) as Hfresh.
  { intros t Ht (s' & Hs' & Ho' & Ht')%elem_of_tags_of.
    assert (str_upper s = str_upper s') as Heq.
    { destruct Ht as [-> | ->], Ht' as [Ht'|Ht'];
        unfold String.app in Ht'; congruence. }
    apply Hinj in Heq; [by subst|left|by right|done|done]. }
  cbn. apply NoDup_cons. split.
  - intros [Hbi|Hin]%elem_of_cons; [discriminate Hbi|].
    eapply Hfresh; [|exact Hin]. by left.
  - apply NoDup_cons. split; [|done].
    apply Hfresh. by right.
Qed.
End BioFacts.

(** ** Facts about [add_meta] *)

Lemma collect_labels_error sample acc e :
  collect_labels sample acc = inl e -> e = KeyError "labels".
Proof.
  revert acc. induction sample as [|s rest IH]; intros acc; [done|].
  cbn. destruct (instances s !! "labels"); [apply IH|congruence].
Qed.

Lemma collect_labels_elem sample acc lbls :
  collect_labels sample acc = inr lbls ->
  forall x, x ∈ lbls <->
    x ∈ acc \/
    exists s ls, s ∈ sample /\ instances s !! "labels" = Some ls /\ x ∈ ls.
Proof.
  revert acc. induction sample as [|s rest IH]; intros acc Hc x.
  - cbn in Hc. injection Hc as <-. split; [by left|].
    intros [?|(s & ls & Hs & _)]; [done|]. by apply elem_of_nil in Hs.
  - cbn in Hc. destruct (instances s !! "labels") as [ls|] eqn:Hls; [|done].
    rewrite (IH _ Hc x), elem_of_app. split.
    + intros [[?|?]|(s' & ls' & Hs' & Hls' & Hx)].
      * by left.
      * right. exists s, ls. split; [left|done].
      * right. exists s', ls'. split; [by right|done].
    + intros [?|(s' & ls' & Hs' & Hls' & Hx)]; [by left; left|].
      apply elem_of_cons in Hs' as [-> | Hs'].
      * left. right. congruence.
      * right. eauto.
Qed.

Section AggregatorFacts.
Variable str_upper : string -> string.
Variable list_set : list pyval -> list pyval.

(** What a returned envelope is made of. *)
Lemma add_meta_inr sample m :
  add_meta str_upper list_set sample = inr m ->
  exists lbls bio,
    all_labels sample = inr lbls /\
    forallb hashable lbls = true /\
    get_bio_label_list str_upper (list_set lbls) = inr bio /\
    m = {| metainfo :=
             {| labels := list_set lbls;
                id2label := dict_of (enumerate bio);
                label2id := dict_of (prod_swap <$> enumerate bio) |};
           data_list := sample |}.
Proof.
  unfold add_meta, all_labels.
  destruct (collect_labels sample []) as [e|lbls]; [done|].
  destruct (forallb hashable lbls) eqn:Hh; [|done].
  destruct (get_bio_label_list str_upper (list_set lbls)) as [e|bio] eqn:Hb;
    [done|].
  intros [= <-]. by exists lbls, bio.
Qed.

(** The three ways in which [add_meta] can fail. *)
Lemma add_meta_inl sample e :
  add_meta str_upper list_set sample = inl e ->
  e = KeyError "labels" \/ e = TypeError \/ e = AttributeError.
Proof.
  unfold add_meta.
  destruct (collect_labels sample []) as [e'|lbls] eqn:Hc.
  { intros [= <-]. left. by eapply collect_labels_error. }
  destruct (forallb hashable lbls); [|intros [= <-]; by right; left].
  rewrite get_bio_label_list_spec.
  destruct (forallb is_str (list_set lbls)); [done|].
  intros [= <-]. by right; right.
Qed.
End AggregatorFacts.

Lemma str_labels_hashable lbls :
  forallb is_str lbls = true -> forallb hashable lbls = true.
Proof.
  rewrite !forallb_forall. intros H x Hx. specialize (H x Hx).
  by destruct x.
Qed.

(** [pack_instance] makes the three example documents. *)
Lemma pack_doc_aA :
  result (pack_instance imread_100x200 relpath_id "."
            ("imgs/x.jpg", [ins_a; ins_A])) = inr doc_aA.
Proof. reflexivity. Qed.

Lemma pack_doc_qo :
  result (pack_instance imread_100x200 relpath_id "." sample_qo)
    = inr doc_qo.
Proof. reflexivity. Qed.

Lemma pack_doc_no_label :
  result (pack_instance imread_100x200 relpath_id "."
            ("imgs/x.jpg", [ins_no_label])) = inr doc_no_label.
Proof. reflexivity. Qed.

(** The end-to-end example, with the set iterated in insertion order. *)
Example add_meta_doc_qo :
  exists m,
    add_meta ascii_upper insertion_order [doc_qo] = inr m /\
    labels (metainfo m) = [PyStr "question"; PyStr "other"] /\
    id2label (metainfo m) !! 0 = Some "O" /\
    id2label (metainfo m) !! 1 = Some "B-QUESTION" /\
    id2label (metainfo m) !! 2 = Some "I-QUESTION" /\
    id2label (metainfo m) !! 3 = None /\
    label2id (metainfo m) !! "O" = Some 0 /\
    label2id (metainfo m) !! "B-QUESTION" = Some 1 /\
    label2id (metainfo m) !! "I-QUESTION" = Some 2 /\
    data_list m = [doc_qo].
Proof. eexists. repeat split; reflexivity. Qed.

(** ** The accumulator in the store *)

Lemma collect_loop_spec σ l refs sample acc :
  σ !! l = None ->
  Heap.labels_at σ refs sample ->
  exists lbls,
    collect_labels sample acc = inr lbls /\
    Heap.collect_loop (<[l := acc]> σ) l refs = Some (<[l := lbls]> σ).
Proof.
  intros Hl Hrefs. revert acc.
  induction Hrefs as [|r s refs sample [[ls Hr] Hs] _ IH]; intros acc.
  - by exists acc.
  - cbn. rewrite <- Hs, Hr. unfold Heap.list_iadd.
    assert (r ≠ l) as Hne by congruence.
    rewrite lookup_insert_eq, lookup_insert_ne, Hr by done.
    rewrite insert_insert_eq. apply IH.
Qed.

(** The loop leaves every list of the store as it was, and the new list
    holds the labels that [collect_labels] returns. *)
Lemma collect_in_place_frame σ refs sample :
  Heap.labels_at σ refs sample ->
  exists l σ' lbls,
    Heap.collect_in_place σ refs = Some (l, σ') /\
    (l ∉ dom σ) /\
    (forall r, r ∈ dom σ -> σ' !! r = σ !! r) /\
    all_labels sample = inr lbls /\
    σ' !! l = Some lbls.
Proof.
  intros Hrefs. unfold Heap.collect_in_place, Heap.new_list.
  pose proof (is_fresh (dom σ)) as Hfresh.
  set (l := fresh (dom σ)) in *.
  assert (σ !! l = None) as Hl.
  { by apply not_elem_of_dom. }
  destruct (collect_loop_spec σ l refs sample [] Hl Hrefs)
    as (lbls & Hc & Hloop).
  rewrite Hloop. exists l, (<[l := lbls]> σ), lbls.
  repeat split; try done.
  - intros r Hr. rewrite lookup_insert_ne; [done|]. by intros ->.
  - apply lookup_insert_eq.
Qed.

(** ** The claims about [add_meta] *)

Lemma get_bio_label_list_total (str_upper : string -> string) lbls :
  forallb is_str lbls = true ->
  exists bio, get_bio_label_list str_upper lbls = inr bio.
Proof. intros H. rewrite get_bio_label_list_spec, H. eauto. Qed.

Lemma get_bio_label_list_inr (str_upper : string -> string) lbls bio :
  get_bio_label_list str_upper lbls = inr bio ->
  forallb is_str lbls = true /\
  bio = replicate (others lbls) "O" ++ tags_of str_upper lbls.
Proof.
  rewrite get_bio_label_list_spec.
  destruct (forallb is_str lbls); [|done]. by intros [= <-].
Qed.

(** C4: in the BIO expansion, a label equal to ['other'] puts ["O"] at the
    front of the list built so far, and any other label [L] appends
    ["B-" + L.upper()] and then ["I-" + L.upper()].  So, for a list of
    labels without repeats that holds ['other'], the result starts with
    ["O"], which occurs nowhere else, before every B-/I- tag; and the two
    tags of any other label stand next to each other, B- first, after the
    tags of the labels before it and before those of the labels after
    it. *)
Theorem bio_expansion
    (str_upper : string -> string) (lbls : list pyval) (bio : list string) :
  get_bio_label_list str_upper lbls = inr bio ->
  (forall rest acc,
     bio_loop str_upper (PyStr "other" :: rest) acc =
       bio_loop str_upper rest ("O" :: acc)) /\
  (forall L rest acc, L ≠ "other" ->
     bio_loop str_upper (PyStr L :: rest) acc =
       bio_loop str_upper rest
         (acc ++ ["B-" +:+ str_upper L; "I-" +:+ str_upper L])) /\
  (forall pre post,
     lbls = pre ++ PyStr "other" :: post -> key_distinct lbls = true ->
     bio = "O" :: tags_of str_upper pre ++ tags_of str_upper post /\
     "O" ∉ tags_of str_upper pre ++ tags_of str_upper post) /\
  (forall pre L post,
     lbls = pre ++ PyStr L :: post -> L ≠ "other" ->
     bio = (replicate (others lbls) "O" ++ tags_of str_upper pre)
           ++ ["B-" +:+ str_upper L; "I-" +:+ str_upper L]
           ++ tags_of str_upper post).
Proof.
  intros [Hstr ->]%get_bio_label_list_inr.
  split; [done|]. split; [|split].
  - intros L rest acc HL. cbn.
    by rewrite bool_decide_eq_false_2.
  - intros pre post -> Hd.
    destruct (key_distinct_others_split _ _ Hd) as [Hpre Hpost].
    rewrite others_app. cbn [others].
    rewrite (proj2 (eq_str_true (PyStr "other") "other") eq_refl).
    rewrite Hpre, Hpost, tags_of_other. split; [done|].
    rewrite <- tags_of_app. apply O_not_tag.
  - intros pre L post -> HL.
    by rewrite tags_of_middle, <- app_assoc.
Qed.

Lemma bio_expansion_witness :
  get_bio_label_list ascii_upper
    [PyStr "question"; PyStr "other"; PyStr "answer"]
    = inr ["O"; "B-QUESTION"; "I-QUESTION"; "B-ANSWER"; "I-ANSWER"] /\
  "O" ∉ tags_of ascii_upper [PyStr "question"]
        ++ tags_of ascii_upper [PyStr "answer"].
Proof.
  split; [reflexivity|].
  destruct (bio_expansion ascii_upper
              [PyStr "question"; PyStr "other"; PyStr "answer"]
              ["O"; "B-QUESTION"; "I-QUESTION"; "B-ANSWER"; "I-ANSWER"]
              eq_refl) as (_ & _ & Hother & _).
  apply (Hother [PyStr "question"] [PyStr "answer"]); reflexivity.
Defined.

(** C1, as stated, fails: for a document with the labels ['a'] and ['A'],
    the tag ["B-A"] has the ids 0 and 2, and [label2id] keeps 2. *)
Lemma label2id_not_inverse :
  exists m,
    add_meta ascii_upper insertion_order [doc_aA] = inr m /\
    ~ inverse_maps (metainfo m).
Proof.
  eexists. split; [reflexivity|].
  intros Hinv. specialize (Hinv 0 "B-A" eq_refl). discriminate Hinv.
Qed.

(** C1 (amended): in the metainfo of a returned envelope, the ids of
    [id2label] are exactly the numbers below [len(bio_label_list)], and
    [id2label[i]] is entry [i] of that list; [id2label[label2id[t]] == t]
    for every tag [t] of [label2id]; and [label2id[id2label[i]] == i] for
    every id [i] when the list has no repeated tag, which is so when the
    raw label list has no repeats and no two raw labels other than
    ['other'] have the same uppercase form. *)
Theorem add_meta_mappings
    (str_upper : string -> string) (list_set : list pyval -> list pyval)
    (sample : list packed_instances) (m : meta_t) :
  add_meta str_upper list_set sample = inr m ->
  exists bio,
    get_bio_label_list str_upper (labels (metainfo m)) = inr bio /\
    contiguous_ids (metainfo m) (length bio) /\
    (forall i, id2label (metainfo m) !! i = bio !! i) /\
    (forall t i, label2id (metainfo m) !! t = Some i ->
       id2label (metainfo m) !! i = Some t) /\
    (NoDup bio -> inverse_maps (metainfo m)) /\
    (key_distinct (labels (metainfo m)) = true ->
     (forall a b,
        PyStr a ∈ labels (metainfo m) -> PyStr b ∈ labels (metainfo m) ->
        a ≠ "other" -> b ≠ "other" -> str_upper a = str_upper b -> a = b) ->
     NoDup bio).
Proof.
  intros (lbls & bio & _ & _ & Hbio & ->)%add_meta_inr. cbn.
  exists bio. split; [done|]. split; [|split; [|split; [|split]]].
  - intros i. cbn. rewrite id2label_lookup. apply lookup_lt_is_Some.
  - apply id2label_lookup.
  - intros t i. apply label2id_sound.
  - intros Hnd i t. cbn. by apply label2id_NoDup.
  - intros Hd Hinj.
    apply get_bio_label_list_inr in Hbio as [Hstr ->].
    apply NoDup_app. split; [|split].
    + destruct (others (list_set lbls)) as [|[|n]] eqn:Ho.
      * constructor.
      * apply NoDup_singleton.
      * exfalso. clear -Hd Ho.
        induction (list_set lbls) as [|v r IH]; [done|].
        cbn in Ho. destruct (eq_str v "other") eqn:E.
        -- apply eq_str_true in E as ->.
           rewrite others_zero in Ho; [done|].
           by apply key_distinct_cons_str.
        -- cbn in Hd. apply andb_true_iff in Hd as [_ Hd]. by apply IH.
    + intros t ->%elem_of_replicate_inv. apply O_not_tag.
    + by apply tags_of_NoDup.
Qed.

Lemma add_meta_mappings_witness :
  exists m,
    add_meta ascii_upper insertion_order [doc_qo] = inr m /\
    inverse_maps (metainfo m) /\
    contiguous_ids (metainfo m) 3.
Proof.
  eexists. split; [reflexivity|].
  destruct (add_meta_mappings ascii_upper insertion_order [doc_qo] _ eq_refl)
    as (bio & Hbio & Hids & _ & _ & Hinv & _).
  vm_compute in Hbio. injection Hbio as <-.
  split; [|exact Hids].
  apply Hinv. apply (bool_decide_unpack _). reflexivity.
Defined.

(** C7: the [data_list] of a returned envelope is the list of documents it
    was given, and the loop that gathers the labels changes no list the
    documents hold: it extends a new list only. *)
Theorem add_meta_data_list
    (str_upper : string -> string) (list_set : list pyval -> list pyval)
    (sample : list packed_instances) (m : meta_t) :
  add_meta str_upper list_set sample = inr m ->
  data_list m = sample /\
  forall σ refs,
    Heap.labels_at σ refs sample ->
    exists l σ' lbls,
      Heap.collect_in_place σ refs = Some (l, σ') /\
      (l ∉ dom σ) /\
      (forall r, r ∈ dom σ -> σ' !! r = σ !! r) /\
      all_labels sample = inr lbls /\
      σ' !! l = Some lbls.
Proof.
  intros (lbls & bio & _ & _ & _ & ->)%add_meta_inr.
  split; [done|]. intros σ refs. apply collect_in_place_frame.
Qed.

Lemma add_meta_data_list_witness :
  exists m,
    add_meta ascii_upper insertion_order [doc_q; doc_qa] = inr m /\
    data_list m = [doc_q; doc_qa] /\
    exists σ',
      Heap.collect_in_place store_q_qa [0; 1] = Some (2, σ') /\
      σ' !! 0 = Some [PyStr "question"] /\
      σ' !! 1 = Some [PyStr "question"; PyStr "answer"] /\
      σ' !! 2 = Some [PyStr "question"; PyStr "question"; PyStr "answer"].
Proof.
  eexists. split; [reflexivity|].
  destruct (add_meta_data_list ascii_upper insertion_order [doc_q; doc_qa]
              _ eq_refl) as [Hdata _].
  split; [exact Hdata|].
  eexists. split; [reflexivity|]. repeat split; reflexivity.
Defined.

(** With another order of the set, the ids are given differently. *)
Example add_meta_order_sensitive :
  exists m1 m2,
    add_meta ascii_upper insertion_order [doc_qa] = inr m1 /\
    add_meta ascii_upper reverse_order [doc_qa] = inr m2 /\
    id2label (metainfo m1) !! 0 = Some "B-QUESTION" /\
    id2label (metainfo m2) !! 0 = Some "B-ANSWER".
Proof. do 2 eexists. repeat split; reflexivity. Qed.

Lemma forallb_is_str_false x l :
  x ∈ l -> is_str x = false -> forallb is_str l = false.
Proof.
  intros Hx Hs. destruct (forallb is_str l) eqn:E; [|done].
  rewrite forallb_forall in E. rewrite <- Hs. symmetry. apply E.
  by apply list_elem_of_In.
Qed.

(** C9: [pack_instance] accepts instances without a ['label'] when their
    ['text'] or ['box'] is truthy, and records [None] for the label; and
    [add_meta] returns no envelope for documents of which one has [None]
    among its labels: it raises, and when every document has its
    ['labels'] list and all labels are hashable, the exception is the
    [AttributeError] of [label.upper()] in [get_bio_label_list]. *)
Theorem null_label_breaks_add_meta
    (imread : string -> option (Z * Z)) (relpath : string -> string -> string)
    (data_root : string) (str_upper : string -> string)
    (list_set : list pyval -> list pyval) :
  set_semantics list_set ->
  (forall path anns h w,
     imread path = Some (h, w) ->
     (forall ins, ins ∈ anns ->
        truthy (dict_get ins "text") || truthy (dict_get ins "box") = true) ->
     exists doc lbls,
       result (pack_instance imread relpath data_root (path, anns))
         = inr doc /\
       instances doc !! "labels" = Some lbls /\
       forall i ins, anns !! i = Some ins -> ins !! "label" = None ->
         lbls !! i = Some PyNone) /\
  (forall sample,
     (exists s lbls,
        s ∈ sample /\ instances s !! "labels" = Some lbls /\ PyNone ∈ lbls) ->
     (exists e, add_meta str_upper list_set sample = inl e) /\
     (forall all,
        all_labels sample = inr all -> forallb hashable all = true ->
        get_bio_label_list str_upper (list_set all) = inl AttributeError /\
        add_meta str_upper list_set sample = inl AttributeError)).
Proof.
  intros Hset. split.
  - intros path anns h w Him Hok.
    assert (forallb instance_ok anns = true) as Hall.
    { apply forallb_instance_ok. intros ins Hin. unfold instance_ok.
      by rewrite (Hok ins Hin). }
    exists
      {| instances :=
           (let doc :=
              <["labels" := column "label" anns]>
                (<["boxes" := column "box" anns]>
                   (<["texts" := column "text" anns]> ∅)) in
            if all_have_words anns
            then <["words" := column "words" anns]> doc else doc);
         img_path := relpath path data_root;
         height := h;
         width := w |}, (column "label" anns).
    split; [by rewrite (pack_instance_packed _ _ _ _ _ _ _ Him Hall)|].
    split.
    + cbn. destruct (all_have_words anns); by simplify_map_eq.
    + intros i ins Hi Hnone.
      rewrite (proj2 (column_aligned "label" anns) i ins Hi).
      unfold dict_get. by rewrite Hnone.
  - intros sample (s & lbls & Hs & Hlbls & Hnone).
    assert (forall all, all_labels sample = inr all ->
              forallb hashable all = true ->
              get_bio_label_list str_upper (list_set all)
                = inl AttributeError) as Hbio.
    { intros all Hc Hh.
      destruct (Hset all Hh) as (_ & Hcomplete & _).
      destruct (Hcomplete PyNone) as (y & Hy & Heq).
      { apply (collect_labels_elem _ _ _ Hc). right. eauto. }
      apply key_eqb_none in Heq as ->.
      rewrite get_bio_label_list_spec.
      by rewrite (forallb_is_str_false PyNone). }
    split.
    + unfold add_meta. fold (all_labels sample).
      destruct (all_labels sample) as [e|all] eqn:Hc; [eauto|].
      destruct (forallb hashable all) eqn:Hh; [|eauto].
      rewrite (Hbio all eq_refl Hh). eauto.
    + intros all Hc Hh. split; [by apply Hbio|].
      unfold add_meta. fold (all_labels sample).
      by rewrite Hc, Hh, (Hbio all Hc Hh).
Qed.

Lemma null_label_breaks_add_meta_witness :
  result (pack_instance imread_100x200 relpath_id "."
            ("imgs/x.jpg", [ins_no_label])) = inr doc_no_label /\
  add_meta ascii_upper insertion_order [doc_qo; doc_no_label]
    = inl AttributeError.
Proof.
  split; [reflexivity|].
  destruct (null_label_breaks_add_meta imread_100x200 relpath_id "."
              ascii_upper insertion_order insertion_order_set_semantics)
    as [_ Hmeta].
  destruct (Hmeta [doc_qo; doc_no_label]) as [_ Herr].
  - exists doc_no_label, [PyNone]. split; [right; left|].
    split; [reflexivity|left].
  - apply (Herr [PyStr "question"; PyStr "other"; PyNone]); reflexivity.
Defined.

(** ** Further consequences *)

Lemma others_one lbls :
  key_distinct lbls = true -> PyStr "other" ∈ lbls -> others lbls = 1.
Proof.
  intros Hd (pre & post & ->)%list_elem_of_split.
  destruct (key_distinct_others_split _ _ Hd) as [Hpre Hpost].
  rewrite others_app. cbn [others].
  rewrite (proj2 (eq_str_true (PyStr "other") "other") eq_refl). lia.
Qed.

(** With any iteration order of the set, a dataset that has the label
    ['other'] gets the tag ["O"] with the id 0, in both mappings. *)
Corollary add_meta_other_first
    (str_upper : string -> string) (list_set : list pyval -> list pyval)
    (sample : list packed_instances) (m : meta_t) :
  set_semantics list_set ->
  add_meta str_upper list_set sample = inr m ->
  PyStr "other" ∈ labels (metainfo m) ->
  id2label (metainfo m) !! 0 = Some "O" /\
  label2id (metainfo m) !! "O" = Some 0.
Proof.
  intros Hset (lbls & bio & _ & Hh & Hbio & ->)%add_meta_inr Hother.
  cbn in *. destruct (Hset lbls Hh) as (_ & _ & Hd).
  apply get_bio_label_list_inr in Hbio as [_ ->].
  rewrite (others_one _ Hd Hother). cbn [replicate app].
  split.
  - by rewrite id2label_lookup.
  - apply label2id_lookup. split; [done|].
    intros [|j] Hj Hin; [lia|]. cbn in Hin.
    apply (O_not_tag str_upper (list_set lbls)).
    by eapply list_elem_of_lookup_2.
Qed.

(** An image that cannot be read stops [pack_instance] before the warning
    and before the assertion. *)
Example pack_instance_imread_none :
  pack_instance imread_none relpath_id "."
    ("imgs/x.jpg", [ins_question; ins_words_only])
  = Outcome [] (inl ImreadError).
Proof. reflexivity. Qed.

(** ** More about [pack_instance] *)

Lemma instance_ok_or ins :
  instance_ok ins = true <->
  truthy (dict_get ins "text") = true \/
  truthy (dict_get ins "box") = true \/
  truthy (dict_get ins "label") = true.
Proof.
  unfold instance_ok. rewrite !orb_true_iff. tauto.
Qed.

Lemma instance_ok_false ins :
  instance_ok ins = false <->
  truthy (dict_get ins "text") = false /\
  truthy (dict_get ins "box") = false /\
  truthy (dict_get ins "label") = false.
Proof.
  unfold instance_ok. rewrite !orb_false_iff. tauto.
Qed.

(** A list that fails a test splits at its first failing entry. *)
Lemma forallb_first_false {A} (f : A -> bool) (l : list A) :
  forallb f l = false ->
  exists pre bad post,
    l = pre ++ bad :: post /\ forallb f pre = true /\ f bad = false.
Proof.
  induction l as [|a l IH]; [discriminate|].
  cbn. destruct (f a) eqn:Ha; cbn.
  - intros (pre & bad & post & -> & Hpre & Hbad)%IH.
    exists (a :: pre), bad, post. cbn. by rewrite Ha, Hpre.
  - intros _. by exists [], a, l.
Qed.

Lemma all_have_words_app a1 a2 :
  all_have_words (a1 ++ a2) = all_have_words a1 && all_have_words a2.
Proof. unfold all_have_words. apply forallb_app. Qed.

Lemma column_app k a1 a2 : column k (a1 ++ a2) = column k a1 ++ column k a2.
Proof. unfold column. apply fmap_app. Qed.

(** X1: [pack_instance] returns a document exactly when the image can be
    read and every instance has a truthy ['text'], ['box'] or ['label'];
    the presence or absence of ['words'] entries never makes it fail. *)
Theorem pack_instance_returns_iff
    (imread : string -> option (Z * Z)) (relpath : string -> string -> string)
    (data_root path : string) (anns : list (gmap string pyval)) :
  (exists doc,
     result (pack_instance imread relpath data_root (path, anns)) = inr doc)
  <->
  is_Some (imread path) /\
  forall ins, ins ∈ anns ->
    truthy (dict_get ins "text") = true \/
    truthy (dict_get ins "box") = true \/
    truthy (dict_get ins "label") = true.
Proof.
  split.
  - intros [doc (h & w & Him & Hok)%pack_instance_inr].
    split; [by eexists|]. intros ins Hin. apply instance_ok_or.
    by apply (proj1 (forallb_instance_ok anns) Hok).
  - intros [[[h w] Him] Hall].
    assert (forallb instance_ok anns = true) as Hok.
    { apply forallb_instance_ok. intros ins Hin. apply instance_ok_or. eauto. }
    rewrite (pack_instance_packed _ _ _ _ _ _ _ Him Hok). by eexists.
Qed.

(** X2: a returned document has the keys ['texts'], ['boxes'] and
    ['labels'], the key ['words'] when every instance has it, and no other
    key; its [img_path] is the path relative to the data root, and its
    [height] and [width] are the two numbers read from the image, in this
    order. *)
Theorem pack_instance_document_shape
    (imread : string -> option (Z * Z)) (relpath : string -> string -> string)
    (data_root path : string) (anns : list (gmap string pyval))
    (doc : packed_instances) :
  result (pack_instance imread relpath data_root (path, anns)) = inr doc ->
  dom (instances doc) =
    ({["texts"; "boxes"; "labels"]} ∪
     (if all_have_words anns then {["words"]} else ∅) : gset string) /\
  img_path doc = relpath path data_root /\
  imread path = Some (height doc, width doc).
Proof.
  intros Hres.
  destruct (pack_instance_inr _ _ _ _ _ _ Hres) as (h & w & Him & Hok).
  rewrite (pack_instance_packed _ _ _ _ _ _ _ Him Hok) in Hres.
  cbn in Hres. injection Hres as <-. cbn. split; [|done].
  destruct (all_have_words anns); rewrite !dom_insert_L, dom_empty_L;
    set_solver.
Qed.

Lemma pack_instance_document_shape_witness :
  exists doc,
    result (pack_instance imread_100x200 relpath_id "."
              ("imgs/x.jpg", [ins_full])) = inr doc /\
    dom (instances doc) =
      ({["texts"; "boxes"; "labels"]} ∪ {["words"]} : gset string) /\
    img_path doc = "imgs/x.jpg" /\
    height doc = 200%Z /\ width doc = 100%Z.
Proof.
  eexists. split; [reflexivity|].
  destruct (pack_instance_document_shape imread_100x200 relpath_id "."
              "imgs/x.jpg" [ins_full] _ eq_refl) as (Hdom & Hpath & _).
  split; [exact Hdom|]. split; [exact Hpath|]. split; reflexivity.
Defined.

(** X3: when a document is returned, the warning was given exactly when
    the document has no ['words'] key: the field is never dropped without
    the warning, and the warning never comes with the field. *)
Theorem pack_instance_warning_iff_no_words
    (imread : string -> option (Z * Z)) (relpath : string -> string -> string)
    (data_root path : string) (anns : list (gmap string pyval))
    (doc : packed_instances) :
  result (pack_instance imread relpath data_root (path, anns)) = inr doc ->
  (words_warning ∈ warned (pack_instance imread relpath data_root (path, anns))
   <-> instances doc !! "words" = None).
Proof.
  intros Hres.
  destruct (pack_instance_columns _ _ _ _ _ _ Hres) as (_ & _ & _ & Hw).
  destruct (pack_instance_inr _ _ _ _ _ _ Hres) as (h & w & Him & _).
  rewrite pack_instance_warned, Him, Hw.
  destruct (all_have_words anns).
  - split; [by intros ?%elem_of_nil|done].
  - split; [done|]. intros _. by apply list_elem_of_singleton.
Qed.

Lemma pack_instance_warning_iff_no_words_witness :
  exists doc,
    result (pack_instance imread_100x200 relpath_id "."
              ("imgs/x.jpg", [ins_full; ins_question])) = inr doc /\
    (words_warning ∈
       warned (pack_instance imread_100x200 relpath_id "."
                 ("imgs/x.jpg", [ins_full; ins_question]))
     <-> instances doc !! "words" = None).
Proof.
  eexists. split; [reflexivity|].
  apply (pack_instance_warning_iff_no_words imread_100x200 relpath_id "."
           "imgs/x.jpg" [ins_full; ins_question]).
  reflexivity.
Defined.

(** X4: [pack_instance] raises in two ways only.  Either the image cannot
    be read, and then no warning was given; or the image can be read and
    the list of instances splits into instances that pass the assertion,
    a first one whose ['text'], ['box'] and ['label'] are all falsy, and
    the rest. *)
Theorem pack_instance_raises
    (imread : string -> option (Z * Z)) (relpath : string -> string -> string)
    (data_root path : string) (anns : list (gmap string pyval)) (e : pyerr) :
  result (pack_instance imread relpath data_root (path, anns)) = inl e ->
  (e = ImreadError /\ imread path = None /\
   warned (pack_instance imread relpath data_root (path, anns)) = []) \/
  (e = AssertionError /\ is_Some (imread path) /\
   exists pre bad post,
     anns = pre ++ bad :: post /\
     (forall ins, ins ∈ pre -> instance_ok ins = true) /\
     truthy (dict_get bad "text") = false /\
     truthy (dict_get bad "box") = false /\
     truthy (dict_get bad "label") = false).
Proof.
  intros Hres. destruct (imread path) as [[h w]|] eqn:Him.
  - right. destruct (forallb instance_ok anns) eqn:Hok.
    { rewrite (pack_instance_packed _ _ _ _ _ _ _ Him Hok) in Hres.
      discriminate. }
    rewrite (pack_instance_assert _ _ _ _ _ _ _ Him Hok) in Hres.
    injection Hres as <-. split; [done|]. split; [by eexists|].
    destruct (forallb_first_false _ _ Hok)
      as (pre & bad & post & -> & Hpre & Hbad).
    exists pre, bad, post. split; [done|].
    split; [by apply forallb_instance_ok|by apply instance_ok_false].
  - left. rewrite (pack_instance_unreadable _ _ _ _ _ Him) in *.
    cbn in Hres. by injection Hres as <-.
Qed.

Lemma pack_instance_raises_witness :
  result (pack_instance imread_100x200 relpath_id "."
            ("imgs/x.jpg", [ins_question; ins_words_only; ins_other]))
    = inl AssertionError /\
  exists pre bad post,
    [ins_question; ins_words_only; ins_other] = pre ++ bad :: post /\
    (forall ins, ins ∈ pre -> instance_ok ins = true) /\
    truthy (dict_get bad "text") = false /\
    truthy (dict_get bad "box") = false /\
    truthy (dict_get bad "label") = false.
Proof.
  split; [reflexivity|].
  destruct (pack_instance_raises imread_100x200 relpath_id "."
              "imgs/x.jpg" [ins_question; ins_words_only; ins_other]
              AssertionError eq_refl) as [[Hne _]|(_ & _ & Hsplit)].
  - discriminate Hne.
  - exact Hsplit.
Defined.

(** X5: packing composes with the concatenation of instance lists.  When
    two lists of instances of one image are each packed into a document,
    their concatenation is packed too, and under every key the list of
    its document is the list of the first document followed by the list
    of the second; so it has the key ['words'] only when both have it. *)
Theorem pack_instance_app
    (imread : string -> option (Z * Z)) (relpath : string -> string -> string)
    (data_root path : string) (anns1 anns2 : list (gmap string pyval))
    (doc1 doc2 : packed_instances) :
  result (pack_instance imread relpath data_root (path, anns1)) = inr doc1 ->
  result (pack_instance imread relpath data_root (path, anns2)) = inr doc2 ->
  exists doc,
    result (pack_instance imread relpath data_root (path, anns1 ++ anns2))
      = inr doc /\
    (forall k,
       instances doc !! k
       = cat_lists (instances doc1 !! k) (instances doc2 !! k)) /\
    img_path doc = img_path doc1 /\
    height doc = height doc1 /\
    width doc = width doc1.
Proof.
  intros H1 H2.
  destruct (pack_instance_inr _ _ _ _ _ _ H1) as (h & w & Him & Hok1).
  destruct (pack_instance_inr _ _ _ _ _ _ H2) as (h' & w' & Him' & Hok2).
  assert (forallb instance_ok (anns1 ++ anns2) = true) as Hok.
  { by rewrite forallb_app, Hok1, Hok2. }
  rewrite (pack_instance_packed _ _ _ _ _ _ _ Him Hok1) in H1.
  rewrite (pack_instance_packed _ _ _ _ _ _ _ Him Hok2) in H2.
  rewrite (pack_instance_packed _ _ _ _ _ _ _ Him Hok).
  cbn in H1, H2. injection H1 as <-. injection H2 as <-.
  eexists. split; [reflexivity|]. cbn. split; [|done].
  intros k. rewrite all_have_words_app, !column_app.
  destruct (decide (k = "words")) as [->|Hw];
    [|destruct (decide (k = "labels")) as [->|Hl];
      [|destruct (decide (k = "boxes")) as [->|Hb];
        [|destruct (decide (k = "texts")) as [->|Ht]]]];
    destruct (all_have_words anns1), (all_have_words anns2); cbn;
    by simplify_map_eq.
Qed.

Lemma pack_instance_app_witness :
  exists doc,
    result (pack_instance imread_100x200 relpath_id "."
              ("imgs/x.jpg", [ins_full] ++ [ins_question; ins_other]))
      = inr doc /\
    instances doc !! "labels"
      = Some [PyStr "question"; PyStr "question"; PyStr "other"] /\
    instances doc !! "words" = None.
Proof.
  destruct (pack_instance_app imread_100x200 relpath_id "." "imgs/x.jpg"
              [ins_full] [ins_question; ins_other] _ _ eq_refl eq_refl)
    as (doc & Hdoc & Hkeys & _).
  exists doc. split; [exact Hdoc|].
  split; rewrite Hkeys; reflexivity.
Defined.

(** ** More about [get_bio_label_list] *)

Lemma forallb_false_ex {A} (f : A -> bool) (l : list A) :
  forallb f l = false <-> exists x, x ∈ l /\ f x = false.
Proof.
  split.
  - intros (pre & bad & post & -> & _ & Hbad)%forallb_first_false.
    exists bad. split; [|done]. apply elem_of_app. right. left.
  - intros (x & Hx & Hf). destruct (forallb f l) eqn:E; [|done].
    rewrite forallb_forall in E. rewrite <- Hf. symmetry. apply E.
    by apply list_elem_of_In.
Qed.

Lemma forallb_is_str_spec lbls :
  forallb is_str lbls = true <-> forall v, v ∈ lbls -> exists s, v = PyStr s.
Proof.
  rewrite forallb_forall. split.
  - intros H v Hv. apply list_elem_of_In in Hv. specialize (H v Hv).
    destruct v; try done. by eexists.
  - intros H v Hv. apply list_elem_of_In in Hv.
    by destruct (H v Hv) as [s ->].
Qed.

Lemma others_pos lbls : PyStr "other" ∈ lbls <-> others lbls ≠ 0.
Proof.
  split.
  - intros (pre & post & ->)%list_elem_of_split. rewrite others_app.
    cbn [others].
    rewrite (proj2 (eq_str_true (PyStr "other") "other") eq_refl). lia.
  - intros Hne. induction lbls as [|v r IH]; [done|].
    cbn in Hne. destruct (eq_str v "other") eqn:E.
    + apply eq_str_true in E as ->. left.
    + right. by apply IH.
Qed.

Lemma length_tags_of (str_upper : string -> string) lbls :
  forallb is_str lbls = true ->
  length (tags_of str_upper lbls) + 2 * others lbls = 2 * length lbls.
Proof.
  induction lbls as [|v r IH]; [done|].
  cbn [forallb]. intros [Hv Hr]%andb_true_iff.
  rewrite tags_of_cons, length_app. cbn [others length].
  destruct v as [| | |s| |]; try done. specialize (IH Hr).
  unfold eq_str. cbn [label_tags key_eqb].
  case_bool_decide; cbn [length]; lia.
Qed.

(** X6: [get_bio_label_list] returns a list exactly when every label is a
    string; otherwise it raises [AttributeError], the missing [upper] of a
    label that is no string, wherever that label stands in the list. *)
Theorem get_bio_label_list_returns_iff
    (str_upper : string -> string) (lbls : list pyval) :
  ((exists bio, get_bio_label_list str_upper lbls = inr bio) <->
   forall v, v ∈ lbls -> exists s, v = PyStr s) /\
  (forall e, get_bio_label_list str_upper lbls = inl e ->
     e = AttributeError /\ exists v, v ∈ lbls /\ is_str v = false).
Proof.
  rewrite get_bio_label_list_spec, <- forallb_is_str_spec.
  destruct (forallb is_str lbls) eqn:Hstr.
  - split; [split; eauto|]. intros e [=].
  - split.
    + split; [by intros [? [=]]|done].
    + intros e [= <-]. split; [done|]. by apply forallb_false_ex.
Qed.

(** X7: for any list of string labels, repeats allowed, the list that
    [get_bio_label_list] returns is one ["O"] for each label equal to
    ['other'], all in front, followed by the B- and I- tags of the other
    labels, pair by pair in the order of the labels; no ["O"] stands among
    the pairs, and the length is twice the number of labels less the
    number of ['other']. *)
Theorem get_bio_label_list_shape
    (str_upper : string -> string) (lbls : list pyval) (bio : list string) :
  get_bio_label_list str_upper lbls = inr bio ->
  bio = replicate (others lbls) "O" ++ tags_of str_upper lbls /\
  ("O" ∉ tags_of str_upper lbls) /\
  length bio + others lbls = 2 * length lbls.
Proof.
  intros [Hstr ->]%get_bio_label_list_inr.
  split; [done|]. split; [apply O_not_tag|].
  rewrite length_app, length_replicate.
  pose proof (length_tags_of str_upper lbls Hstr). lia.
Qed.

Lemma get_bio_label_list_shape_witness :
  get_bio_label_list ascii_upper
    [PyStr "other"; PyStr "answer"; PyStr "other"]
    = inr ["O"; "O"; "B-ANSWER"; "I-ANSWER"] /\
  length ["O"; "O"; "B-ANSWER"; "I-ANSWER"]
    + others [PyStr "other"; PyStr "answer"; PyStr "other"] = 2 * 3.
Proof.
  split; [reflexivity|].
  apply (get_bio_label_list_shape ascii_upper
           [PyStr "other"; PyStr "answer"; PyStr "other"]
           ["O"; "O"; "B-ANSWER"; "I-ANSWER"] eq_refl).
Defined.

(** ** More about [add_meta] *)

Lemma collect_labels_total sample acc :
  (forall s, s ∈ sample -> is_Some (instances s !! "labels")) ->
  exists all, collect_labels sample acc = inr all.
Proof.
  revert acc. induction sample as [|s rest IH]; intros acc Hall.
  - by exists acc.
  - cbn. destruct (Hall s) as [ls ->]; [left|].
    apply IH. intros s' Hs'. apply Hall. by right.
Qed.

Lemma collect_labels_missing sample acc :
  (exists s, s ∈ sample /\ instances s !! "labels" = None) ->
  collect_labels sample acc = inl (KeyError "labels").
Proof.
  revert acc. induction sample as [|s rest IH]; intros acc (s' & Hs' & Hn).
  - by apply elem_of_nil in Hs'.
  - cbn. destruct (instances s !! "labels") as [ls|] eqn:Hls; [|done].
    apply IH. apply elem_of_cons in Hs' as [-> | Hs']; [congruence|eauto].
Qed.

Lemma collect_labels_inr_all sample acc all :
  collect_labels sample acc = inr all ->
  forall s, s ∈ sample -> is_Some (instances s !! "labels").
Proof.
  intros Hc s Hs. destruct (instances s !! "labels") eqn:Hls; [by eexists|].
  rewrite collect_labels_missing in Hc; [done|eauto].
Qed.

Lemma collect_labels_inl_missing sample acc e :
  collect_labels sample acc = inl e ->
  exists s, s ∈ sample /\ instances s !! "labels" = None.
Proof.
  revert acc. induction sample as [|s rest IH]; intros acc; [done|].
  cbn. destruct (instances s !! "labels") as [ls|] eqn:Hls.
  - intros (s' & Hs' & Hn)%IH. exists s'. split; [by right|done].
  - intros _. exists s. split; [left|done].
Qed.

Lemma list_set_is_str (list_set : list pyval -> list pyval) all :
  set_semantics list_set ->
  forallb hashable all = true ->
  forallb is_str (list_set all) = forallb is_str all.
Proof.
  intros Hset Hh. destruct (Hset all Hh) as (Hsound & Hcomplete & _).
  destruct (forallb is_str all) eqn:Hall.
  - apply forallb_is_str_spec. intros v Hv.
    by apply (proj1 (forallb_is_str_spec all) Hall), Hsound.
  - apply forallb_false_ex in Hall as (v & Hv & Hs).
    destruct (Hcomplete v Hv) as (y & Hy & Heq).
    apply forallb_false_ex. exists y. split; [done|].
    destruct y as [| | |s| |]; try done.
    apply key_eqb_str in Heq as ->. done.
Qed.

(** X8: with any iteration order of the set, [add_meta] returns an
    envelope exactly when every document has a ['labels'] list and every
    label in these lists is a string. *)
Theorem add_meta_returns_iff
    (str_upper : string -> string) (list_set : list pyval -> list pyval)
    (sample : list packed_instances) :
  set_semantics list_set ->
  ((exists m, add_meta str_upper list_set sample = inr m) <->
   forall s, s ∈ sample ->
     exists ls, instances s !! "labels" = Some ls /\
       forall v, v ∈ ls -> exists str, v = PyStr str).
Proof.
  intros Hset. split.
  - intros [m (all & bio & Hc & Hh & Hbio & _)%add_meta_inr] s Hs.
    destruct (collect_labels_inr_all _ _ _ Hc s Hs) as [ls Hls].
    exists ls. split; [done|]. intros v Hv.
    apply get_bio_label_list_inr in Hbio as [Hstr _].
    rewrite (list_set_is_str _ _ Hset Hh) in Hstr.
    apply (proj1 (forallb_is_str_spec all) Hstr).
    apply (collect_labels_elem _ _ _ Hc). right. eauto.
  - intros Hall.
    destruct (collect_labels_total sample []) as [all Hc].
    { intros s Hs. destruct (Hall s Hs) as (ls & -> & _). by eexists. }
    assert (forallb is_str all = true) as Hstr.
    { apply forallb_is_str_spec. intros v Hv.
      apply (collect_labels_elem _ _ _ Hc) in Hv
        as [Hnil|(s & ls & Hs & Hls & Hv)].
      { by apply elem_of_nil in Hnil. }
      destruct (Hall s Hs) as (ls' & Hls' & Hstr). apply Hstr. congruence. }
    pose proof (str_labels_hashable _ Hstr) as Hh.
    unfold add_meta. rewrite Hc, Hh, get_bio_label_list_spec.
    rewrite (list_set_is_str _ _ Hset Hh), Hstr. by eexists.
Qed.

Lemma add_meta_returns_iff_witness :
  (exists m, add_meta ascii_upper insertion_order [doc_qo; doc_qa] = inr m) /\
  ~ (exists m, add_meta ascii_upper insertion_order [doc_qo; doc_no_label]
               = inr m).
Proof.
  split.
  - apply (add_meta_returns_iff ascii_upper insertion_order [doc_qo; doc_qa]
             insertion_order_set_semantics).
    intros s Hs. apply list_elem_of_In in Hs.
    destruct Hs as [<- | [<- | []]]; (eexists; split; [reflexivity|]);
      intros v Hv; apply list_elem_of_In in Hv;
      destruct Hv as [<- | [<- | []]]; by eexists.
  - intros Hm.
    pose proof (proj1 (add_meta_returns_iff ascii_upper insertion_order
                         [doc_qo; doc_no_label]
                         insertion_order_set_semantics) Hm) as Hall.
    destruct (Hall doc_no_label) as (ls & Hls & Hstr); [right; left|].
    injection Hls as <-. destruct (Hstr PyNone) as [s Hs]; [left|].
    discriminate Hs.
Defined.

(** X9: [add_meta] raises [KeyError], for the key ['labels'], exactly when
    some document has no ['labels'] list, whatever the labels of the
    other documents are. *)
Theorem add_meta_key_error
    (str_upper : string -> string) (list_set : list pyval -> list pyval)
    (sample : list packed_instances) (k : string) :
  add_meta str_upper list_set sample = inl (KeyError k) <->
  k = "labels" /\ exists s, s ∈ sample /\ instances s !! "labels" = None.
Proof.
  unfold add_meta. split.
  - destruct (collect_labels sample []) as [e|all] eqn:Hc.
    + intros [= ->]. split.
      * apply collect_labels_error in Hc. congruence.
      * by eapply collect_labels_inl_missing.
    + destruct (forallb hashable all); [|done].
      rewrite get_bio_label_list_spec.
      by destruct (forallb is_str (list_set all)).
  - intros [-> Hmiss]. by rewrite (collect_labels_missing _ _ Hmiss).
Qed.

(** X10: [add_meta] raises [TypeError] exactly when every document has a
    ['labels'] list and some label is a list or a dict; such a label
    stops it before any label is uppercased. *)
Theorem add_meta_type_error
    (str_upper : string -> string) (list_set : list pyval -> list pyval)
    (sample : list packed_instances) :
  add_meta str_upper list_set sample = inl TypeError <->
  exists all,
    all_labels sample = inr all /\
    exists v, v ∈ all /\ hashable v = false.
Proof.
  unfold add_meta, all_labels. split.
  - destruct (collect_labels sample []) as [e|all] eqn:Hc.
    + intros [= ->]. by apply collect_labels_error in Hc.
    + destruct (forallb hashable all) eqn:Hh.
      * rewrite get_bio_label_list_spec.
        by destruct (forallb is_str (list_set all)).
      * intros _. exists all. split; [done|]. by apply forallb_false_ex.
  - intros (all & -> & Hv). apply forallb_false_ex in Hv. by rewrite Hv.
Qed.

(** X11: with any iteration order of the set, [add_meta] raises
    [AttributeError] exactly when every document has a ['labels'] list,
    every label is hashable, and some label is no string ([None], a
    number or a boolean). *)
Theorem add_meta_attribute_error
    (str_upper : string -> string) (list_set : list pyval -> list pyval)
    (sample : list packed_instances) :
  set_semantics list_set ->
  (add_meta str_upper list_set sample = inl AttributeError <->
   exists all,
     all_labels sample = inr all /\
     forallb hashable all = true /\
     exists v, v ∈ all /\ is_str v = false).
Proof.
  intros Hset. unfold add_meta, all_labels. split.
  - destruct (collect_labels sample []) as [e|all] eqn:Hc.
    + intros [= ->]. by apply collect_labels_error in Hc.
    + destruct (forallb hashable all) eqn:Hh; [|done].
      rewrite get_bio_label_list_spec, (list_set_is_str _ _ Hset Hh).
      destruct (forallb is_str all) eqn:Hstr; [done|].
      intros _. exists all. split; [done|]. split; [done|].
      by apply forallb_false_ex.
  - intros (all & -> & Hh & Hv). apply forallb_false_ex in Hv.
    by rewrite Hh, get_bio_label_list_spec, (list_set_is_str _ _ Hset Hh), Hv.
Qed.

Lemma add_meta_attribute_error_witness :
  add_meta ascii_upper insertion_order [doc_qa; doc_no_label]
  = inl AttributeError.
Proof.
  apply (add_meta_attribute_error ascii_upper insertion_order
           [doc_qa; doc_no_label] insertion_order_set_semantics).
  exists [PyStr "question"; PyStr "answer"; PyNone].
  split; [reflexivity|]. split; [reflexivity|].
  exists PyNone. split; [|reflexivity]. right. right. left.
Defined.

(** The three failures on examples: a missing key comes before a label
    that cannot be hashed, and that one before a label that is no
    string. *)
Example add_meta_error_order :
  add_meta ascii_upper insertion_order [doc_list_label; doc_no_labels_key]
    = inl (KeyError "labels") /\
  add_meta ascii_upper insertion_order [doc_no_label; doc_list_label]
    = inl TypeError.
Proof. split; reflexivity. Qed.

Lemma key_distinct_NoDup l :
  key_distinct l = true -> forallb hashable l = true -> NoDup l.
Proof.
  induction l as [|x r IH]; [constructor|].
  cbn. intros [Hx Hr]%andb_true_iff [Hhx Hhr]%andb_true_iff.
  apply NoDup_cons. split; [|by apply IH].
  intros Hin. apply negb_true_iff in Hx.
  assert (existsb (key_eqb x) r = true) as Hex; [|congruence].
  apply existsb_key_eqb. exists x. split; [done|by apply key_eqb_refl].
Qed.

Lemma others_le_one lbls : key_distinct lbls = true -> others lbls <= 1.
Proof.
  induction lbls as [|v r IH]; [cbn; lia|].
  intros Hd. cbn [others]. destruct (eq_str v "other") eqn:E.
  - apply eq_str_true in E as ->.
    rewrite others_zero; [lia|]. by apply key_distinct_cons_str.
  - apply IH. cbn in Hd. by apply andb_true_iff in Hd as [_ ?].
Qed.

Lemma dict_of_enumerate_size (bio : list string) :
  size (dict_of (enumerate bio)) = length bio.
Proof.
  induction bio as [|t bio IH] using rev_ind; [done|].
  rewrite enumerate_snoc, dict_of_snoc, length_app. cbn.
  rewrite map_size_insert_None, IH; [lia|].
  rewrite id2label_lookup. by apply lookup_ge_None_2.
Qed.

Lemma label2id_is_Some (bio : list string) (t : string) :
  is_Some (dict_of (prod_swap <$> enumerate bio) !! t) <-> t ∈ bio.
Proof.
  induction bio as [|u bio IH] using rev_ind.
  - cbn. split; [by intros [? ?]|by intros ?%elem_of_nil].
  - rewrite enumerate_snoc, fmap_app. cbn [fmap list_fmap prod_swap].
    cbn. rewrite dict_of_snoc, elem_of_app, list_elem_of_singleton.
    destruct (decide (u = t)) as [->|Hne].
    + rewrite lookup_insert_eq. split; [by right|by eexists].
    + rewrite lookup_insert_ne by done. rewrite IH.
      split; [by left|]. intros [?|?]; [done|congruence].
Qed.

Section MetaFacts.
Variable str_upper : string -> string.
Variable list_set : list pyval -> list pyval.
Hypothesis list_set_ok : set_semantics list_set.

(** The raw label list of an envelope holds the labels of the documents,
    which are strings, each once. *)
Lemma add_meta_labels_elem sample m :
  add_meta str_upper list_set sample = inr m ->
  (forall v, v ∈ labels (metainfo m) <->
     exists s ls,
       s ∈ sample /\ instances s !! "labels" = Some ls /\ v ∈ ls) /\
  forallb is_str (labels (metainfo m)) = true /\
  key_distinct (labels (metainfo m)) = true.
Proof.
  intros (all & bio & Hc & Hh & Hbio & ->)%add_meta_inr. cbn.
  destruct (list_set_ok all Hh) as (Hsound & Hcomplete & Hd).
  apply get_bio_label_list_inr in Hbio as [Hstr _].
  split; [|done]. intros v. split.
  - intros Hv%Hsound. apply (collect_labels_elem _ _ _ Hc) in Hv
      as [Hnil|?]; [by apply elem_of_nil in Hnil|done].
  - intros Hex.
    assert (v ∈ all) as Hv by (apply (collect_labels_elem _ _ _ Hc); eauto).
    destruct (Hcomplete v Hv) as (y & Hy & Heq).
    destruct (proj1 (forallb_is_str_spec _) Hstr y Hy) as [str ->].
    by apply key_eqb_str in Heq as ->.
Qed.

Lemma add_meta_success sample all :
  all_labels sample = inr all ->
  forallb is_str all = true ->
  exists bio,
    get_bio_label_list str_upper (list_set all) = inr bio /\
    add_meta str_upper list_set sample =
      inr {| metainfo :=
               {| labels := list_set all;
                  id2label := dict_of (enumerate bio);
                  label2id := dict_of (prod_swap <$> enumerate bio) |};
             data_list := sample |}.
Proof.
  unfold all_labels. intros Hc Hstr.
  pose proof (str_labels_hashable _ Hstr) as Hh.
  unfold add_meta. rewrite Hc, Hh, get_bio_label_list_spec.
  rewrite (list_set_is_str _ _ list_set_ok Hh), Hstr. by eexists.
Qed.
End MetaFacts.

(** X12: with any iteration order of the set, the ['labels'] of the
    metainfo are the labels of the documents: every label of every
    document is in the list, nothing else is, and no label is there
    twice. *)
Theorem add_meta_labels
    (str_upper : string -> string) (list_set : list pyval -> list pyval)
    (sample : list packed_instances) (m : meta_t) :
  set_semantics list_set ->
  add_meta str_upper list_set sample = inr m ->
  (forall v, v ∈ labels (metainfo m) <->
     exists s ls,
       s ∈ sample /\ instances s !! "labels" = Some ls /\ v ∈ ls) /\
  NoDup (labels (metainfo m)).
Proof.
  intros Hset Hm.
  destruct (add_meta_labels_elem _ _ Hset _ _ Hm) as (Helem & Hstr & Hd).
  split; [done|]. apply key_distinct_NoDup; [done|].
  by apply str_labels_hashable.
Qed.

Lemma add_meta_labels_witness :
  exists m,
    add_meta ascii_upper insertion_order [doc_q; doc_qa] = inr m /\
    labels (metainfo m) = [PyStr "question"; PyStr "answer"] /\
    NoDup (labels (metainfo m)).
Proof.
  eexists. split; [reflexivity|]. split; [reflexivity|].
  apply (add_meta_labels ascii_upper insertion_order [doc_q; doc_qa] _
           insertion_order_set_semantics eq_refl).
Defined.

(** X13: the tags of [id2label] are exactly these: ["O"], when ['other']
    is among the raw labels, and the B- and the I- tag of the uppercased
    name of every other raw label.  No tag is made for a label that is
    not in the data. *)
Theorem add_meta_tags
    (str_upper : string -> string) (list_set : list pyval -> list pyval)
    (sample : list packed_instances) (m : meta_t) :
  add_meta str_upper list_set sample = inr m ->
  forall t,
    (exists i, id2label (metainfo m) !! i = Some t) <->
    (t = "O" /\ PyStr "other" ∈ labels (metainfo m)) \/
    (exists L, PyStr L ∈ labels (metainfo m) /\ L ≠ "other" /\
       (t = "B-" +:+ str_upper L \/ t = "I-" +:+ str_upper L)).
Proof.
  intros (all & bio & _ & _ & Hbio & ->)%add_meta_inr t. cbn.
  apply get_bio_label_list_inr in Hbio as [_ ->].
  setoid_rewrite id2label_lookup.
  rewrite <- list_elem_of_lookup, elem_of_app, elem_of_replicate.
  rewrite elem_of_tags_of, others_pos. tauto.
Qed.

Lemma add_meta_tags_witness :
  exists m,
    add_meta ascii_upper insertion_order [doc_qo] = inr m /\
    ((exists i, id2label (metainfo m) !! i = Some "B-ANSWER") <->
     ("B-ANSWER" = "O" /\ PyStr "other" ∈ labels (metainfo m)) \/
     (exists L, PyStr L ∈ labels (metainfo m) /\ L ≠ "other" /\
        ("B-ANSWER" = "B-" +:+ ascii_upper L \/
         "B-ANSWER" = "I-" +:+ ascii_upper L))).
Proof.
  eexists. split; [reflexivity|].
  apply (add_meta_tags ascii_upper insertion_order [doc_qo] _ eq_refl).
Defined.

(** X14: [label2id] has an entry for exactly the tags of [id2label]; it
    gives different tags different ids; and every id it gives is a key
    of [id2label], below the number of its entries. *)
Theorem add_meta_label2id
    (str_upper : string -> string) (list_set : list pyval -> list pyval)
    (sample : list packed_instances) (m : meta_t) :
  add_meta str_upper list_set sample = inr m ->
  (forall t, is_Some (label2id (metainfo m) !! t) <->
     exists i, id2label (metainfo m) !! i = Some t) /\
  (forall t1 t2 i,
     label2id (metainfo m) !! t1 = Some i ->
     label2id (metainfo m) !! t2 = Some i -> t1 = t2) /\
  (forall t i, label2id (metainfo m) !! t = Some i ->
     i < size (id2label (metainfo m))).
Proof.
  intros (all & bio & _ & _ & _ & ->)%add_meta_inr. cbn.
  split; [|split].
  - intros t. rewrite label2id_is_Some, list_elem_of_lookup.
    by setoid_rewrite id2label_lookup.
  - intros t1 t2 i H1%label2id_sound H2%label2id_sound. congruence.
  - intros t i Hi%label2id_sound. rewrite id2label_lookup in Hi.
    rewrite dict_of_enumerate_size. by eapply lookup_lt_Some.
Qed.

Lemma add_meta_label2id_witness :
  exists m,
    add_meta ascii_upper insertion_order [doc_aA] = inr m /\
    label2id (metainfo m) !! "B-A" = Some 2 /\
    2 < size (id2label (metainfo m)).
Proof.
  eexists. split; [reflexivity|]. split; [reflexivity|].
  destruct (add_meta_label2id ascii_upper insertion_order [doc_aA] _ eq_refl)
    as (_ & _ & Hlt).
  apply (Hlt "B-A"). reflexivity.
Defined.

Section TagFacts.
Variable str_upper : string -> string.

Lemma tags_of_NoDup_inj lbls :
  NoDup (tags_of str_upper lbls) ->
  forall a b, PyStr a ∈ lbls -> PyStr b ∈ lbls ->
    a ≠ "other" -> b ≠ "other" -> str_upper a = str_upper b -> a = b.
Proof.
  induction lbls as [|v r IH]; intros Hnd a b Ha Hb Hao Hbo Heq.
  { by apply elem_of_nil in Ha. }
  rewrite tags_of_cons in Hnd. apply NoDup_app in Hnd as (_ & Hdisj & Hr).
  assert (forall c d, v = PyStr c -> PyStr d ∈ r -> c ≠ "other" ->
            d ≠ "other" -> str_upper c = str_upper d -> False) as Hcross.
  { intros c d -> Hd Hco Hdo Hcd.
    apply (Hdisj ("B-" +:+ str_upper c)).
    - cbn. rewrite bool_decide_eq_false_2 by done. left.
    - apply elem_of_tags_of. exists d. rewrite Hcd. eauto. }
  apply elem_of_cons in Ha as [Ha|Ha], Hb as [Hb|Hb].
  - congruence.
  - destruct (Hcross a b); by eauto.
  - destruct (Hcross b a); by eauto.
  - by apply IH.
Qed.

Lemma bio_NoDup lbls :
  key_distinct lbls = true ->
  (forall a b, PyStr a ∈ lbls -> PyStr b ∈ lbls ->
     a ≠ "other" -> b ≠ "other" -> str_upper a = str_upper b -> a = b) ->
  NoDup (replicate (others lbls) "O" ++ tags_of str_upper lbls).
Proof.
  intros Hd Hinj. apply NoDup_app. split; [|split].
  - pose proof (others_le_one _ Hd) as Hle.
    destruct (others lbls) as [|[|n]]; [constructor|apply NoDup_singleton|lia].
  - intros t ->%elem_of_replicate_inv. apply O_not_tag.
  - by apply tags_of_NoDup.
Qed.

Lemma paired_nil : paired [].
Proof. split; intros j u Hj; by rewrite lookup_nil in Hj. Qed.

Lemma paired_O l : paired l -> paired ("O" :: l).
Proof.
  intros [HI HB]. split.
  - intros [|j] u Hj; [discriminate Hj|].
    destruct (HI j u Hj) as (j' & -> & Hj'). by exists (S j').
  - intros [|j] u Hj; [discriminate Hj|]. by apply HB.
Qed.

Lemma paired_pair s l :
  paired l -> paired (("B-" +:+ s) :: ("I-" +:+ s) :: l).
Proof.
  intros [HI HB]. split.
  - intros [|[|j]] u Hj.
    + discriminate Hj.
    + exists 0. split; [done|]. cbn in Hj. unfold String.app in Hj.
      cbn. unfold String.app. congruence.
    + destruct (HI j u Hj) as (j' & -> & Hj'). by exists (S (S j')).
  - intros [|[|j]] u Hj.
    + cbn in Hj. unfold String.app in Hj.
      cbn. unfold String.app. congruence.
    + discriminate Hj.
    + by apply HB.
Qed.

Lemma paired_tags_of lbls : paired (tags_of str_upper lbls).
Proof.
  induction lbls as [|v r IH]; [apply paired_nil|].
  rewrite tags_of_cons. destruct v as [| | |s| |]; try done.
  cbn [label_tags]. case_bool_decide; [done|]. by apply paired_pair.
Qed.

Lemma paired_bio k lbls :
  paired (replicate k "O" ++ tags_of str_upper lbls).
Proof.
  induction k as [|k IH]; [apply paired_tags_of|]. by apply paired_O.
Qed.
End TagFacts.

(** X15: with any iteration order of the set, [label2id] is the inverse
    of [id2label] ([label2id[id2label[i]] == i] for every id) if and only
    if no two raw labels other than ['other'] have the same uppercase
    form. *)
Theorem add_meta_inverse_iff
    (str_upper : string -> string) (list_set : list pyval -> list pyval)
    (sample : list packed_instances) (m : meta_t) :
  set_semantics list_set ->
  add_meta str_upper list_set sample = inr m ->
  (inverse_maps (metainfo m) <->
   forall a b,
     PyStr a ∈ labels (metainfo m) -> PyStr b ∈ labels (metainfo m) ->
     a ≠ "other" -> b ≠ "other" -> str_upper a = str_upper b -> a = b).
Proof.
  intros Hset Hm.
  destruct (add_meta_labels_elem _ _ Hset _ _ Hm) as (_ & _ & Hd).
  apply add_meta_inr in Hm as (all & bio & _ & _ & Hbio & ->).
  cbn in *. apply get_bio_label_list_inr in Hbio as [_ ->].
  split.
  - intros Hinv. apply tags_of_NoDup_inj.
    assert (NoDup (replicate (others (list_set all)) "O"
                   ++ tags_of str_upper (list_set all))) as Hnd.
    { apply NoDup_alt. intros i j t Hi Hj.
      rewrite <- id2label_lookup in Hi, Hj.
      apply Hinv in Hi, Hj. cbn in Hi, Hj. congruence. }
    by apply NoDup_app in Hnd as (_ & _ & ?).
  - intros Hinj i t. cbn. apply label2id_NoDup. by apply bio_NoDup.
Qed.

Lemma add_meta_inverse_iff_witness :
  exists m,
    add_meta ascii_upper insertion_order [doc_aA] = inr m /\
    ~ (forall a b,
         PyStr a ∈ labels (metainfo m) -> PyStr b ∈ labels (metainfo m) ->
         a ≠ "other" -> b ≠ "other" ->
         ascii_upper a = ascii_upper b -> a = b) /\
    ~ inverse_maps (metainfo m).
Proof.
  eexists. split; [reflexivity|].
  assert (~ (forall a b : string,
               PyStr a ∈ [PyStr "a"; PyStr "A"] ->
               PyStr b ∈ [PyStr "a"; PyStr "A"] ->
               a ≠ "other" -> b ≠ "other" ->
               ascii_upper a = ascii_upper b -> a = b)) as Hcollide.
  { intros Hinj. specialize (Hinj "a" "A").
    discriminate Hinj; [left|right; left|done|done|reflexivity]. }
  split; [exact Hcollide|].
  intros Hinv. apply Hcollide.
  apply (proj1 (add_meta_inverse_iff ascii_upper insertion_order [doc_aA] _
                  insertion_order_set_semantics eq_refl) Hinv).
Defined.

(** X16: for every raw label other than ['other'], [label2id] has both
    tags of the label, and the id of its I- tag is the id of its B- tag
    plus one; [id2label] maps the two ids back to these tags.  This holds
    also when several raw labels share an uppercase form. *)
Theorem add_meta_tag_pair
    (str_upper : string -> string) (list_set : list pyval -> list pyval)
    (sample : list packed_instances) (m : meta_t) (L : string) :
  add_meta str_upper list_set sample = inr m ->
  PyStr L ∈ labels (metainfo m) ->
  L ≠ "other" ->
  exists i,
    label2id (metainfo m) !! ("B-" +:+ str_upper L) = Some i /\
    label2id (metainfo m) !! ("I-" +:+ str_upper L) = Some (S i) /\
    id2label (metainfo m) !! i = Some ("B-" +:+ str_upper L) /\
    id2label (metainfo m) !! (S i) = Some ("I-" +:+ str_upper L).
Proof.
  intros (all & bio & _ & _ & Hbio & ->)%add_meta_inr HL Hne. cbn in *.
  apply get_bio_label_list_inr in Hbio as [_ ->].
  set (bio := replicate (others (list_set all)) "O"
              ++ tags_of str_upper (list_set all)).
  destruct (paired_bio str_upper (others (list_set all)) (list_set all))
    as [HI HB]. fold bio in HI, HB.
  assert ("B-" +:+ str_upper L ∈ bio) as HBin.
  { apply elem_of_app. right. apply elem_of_tags_of. exists L. eauto. }
  apply label2id_is_Some in HBin as [i Hi]. exists i.
  pose proof (proj1 (label2id_lookup _ _ _) Hi) as [Hbi Hlast].
  pose proof (HB _ _ Hbi) as Hii.
  split; [done|]. rewrite !id2label_lookup. split; [|done].
  apply label2id_lookup. split; [done|].
  intros j Hj Hjt. destruct (HI _ _ Hjt) as (j' & -> & Hj').
  apply (Hlast j'); [lia|done].
Qed.

Lemma add_meta_tag_pair_witness :
  exists m i,
    add_meta ascii_upper insertion_order [doc_aA] = inr m /\
    label2id (metainfo m) !! "B-A" = Some i /\
    label2id (metainfo m) !! "I-A" = Some (S i).
Proof.
  destruct (add_meta_tag_pair ascii_upper insertion_order [doc_aA] _ "a"
              eq_refl) as (i & HB & HI & _).
  - left.
  - done.
  - eexists _, i. split; [reflexivity|]. split; [exact HB|exact HI].
Defined.

(** X17: with any iteration order of the set, [id2label] has two entries
    for every raw label, less one when ['other'] is among the raw
    labels. *)
Theorem add_meta_id_count
    (str_upper : string -> string) (list_set : list pyval -> list pyval)
    (sample : list packed_instances) (m : meta_t) :
  set_semantics list_set ->
  add_meta str_upper list_set sample = inr m ->
  (PyStr "other" ∈ labels (metainfo m) ->
   size (id2label (metainfo m)) + 1 = 2 * length (labels (metainfo m))) /\
  (PyStr "other" ∉ labels (metainfo m) ->
   size (id2label (metainfo m)) = 2 * length (labels (metainfo m))).
Proof.
  intros Hset Hm.
  destruct (add_meta_labels_elem _ _ Hset _ _ Hm) as (_ & Hstr & Hd).
  apply add_meta_inr in Hm as (all & bio & _ & _ & Hbio & ->).
  cbn in *. apply get_bio_label_list_inr in Hbio as [_ ->].
  rewrite dict_of_enumerate_size, length_app, length_replicate.
  pose proof (length_tags_of str_upper _ Hstr) as Hlen.
  split.
  - intros Ho. rewrite (others_one _ Hd Ho) in *. lia.
  - intros Ho. rewrite (others_zero _ Ho) in *. lia.
Qed.

Lemma add_meta_id_count_witness :
  exists m,
    add_meta ascii_upper insertion_order [doc_qo; doc_qa] = inr m /\
    length (labels (metainfo m)) = 3 /\
    size (id2label (metainfo m)) + 1 = 2 * length (labels (metainfo m)).
Proof.
  eexists. split; [reflexivity|]. split; [reflexivity|].
  destruct (add_meta_id_count ascii_upper insertion_order [doc_qo; doc_qa] _
              insertion_order_set_semantics eq_refl) as [Hother _].
  apply Hother. right. left.
Defined.

Lemma dict_get_str ins k s :
  dict_get ins k = PyStr s <-> ins !! k = Some (PyStr s).
Proof.
  unfold dict_get. destruct (ins !! k) as [v|]; cbn; [|done].
  split; congruence.
Qed.

(** X18: [add_meta] composes with [pack_instance].  On documents that
    [pack_instance] returned, with any iteration order of the set,
    [add_meta] never raises [KeyError]; and when every instance of every
    sample has a string as its ['label'], it returns an envelope whose
    [data_list] is these documents and whose raw labels are exactly the
    labels of the instances. *)
Theorem pack_then_add_meta
    (imread : string -> option (Z * Z)) (relpath : string -> string -> string)
    (data_root : string) (str_upper : string -> string)
    (list_set : list pyval -> list pyval)
    (samples : list (string * list (gmap string pyval)))
    (docs : list packed_instances) :
  set_semantics list_set ->
  Forall2
    (fun smp doc =>
       result (pack_instance imread relpath data_root smp) = inr doc)
    samples docs ->
  (forall k, add_meta str_upper list_set docs ≠ inl (KeyError k)) /\
  ((forall smp ins, smp ∈ samples -> ins ∈ smp.2 ->
      exists s, ins !! "label" = Some (PyStr s)) ->
   exists m,
     add_meta str_upper list_set docs = inr m /\
     data_list m = docs /\
     forall s, PyStr s ∈ labels (metainfo m) <->
       exists smp ins,
         smp ∈ samples /\ ins ∈ smp.2 /\ ins !! "label" = Some (PyStr s)).
Proof.
  intros Hset Hpack.
  assert (forall doc, doc ∈ docs ->
            exists path anns,
              (path, anns) ∈ samples /\
              instances doc !! "labels" = Some (column "label" anns))
    as Hdocs.
  { intros doc (i & Hi)%list_elem_of_lookup.
    destruct (Forall2_lookup_r _ _ _ _ _ Hpack Hi) as ([path anns] & Hs & Hr).
    exists path, anns. split; [by eapply list_elem_of_lookup_2|].
    by destruct (pack_instance_columns _ _ _ _ _ _ Hr) as (_ & _ & ? & _). }
  assert (forall path anns, (path, anns) ∈ samples ->
            exists doc, doc ∈ docs /\
              instances doc !! "labels" = Some (column "label" anns))
    as Hsamples.
  { intros path anns (i & Hi)%list_elem_of_lookup.
    destruct (Forall2_lookup_l _ _ _ _ _ Hpack Hi) as (doc & Hd & Hr).
    exists doc. split; [by eapply list_elem_of_lookup_2|].
    by destruct (pack_instance_columns _ _ _ _ _ _ Hr) as (_ & _ & ? & _). }
  destruct (collect_labels_total docs []) as [all Hc].
  { intros doc Hdoc. destruct (Hdocs doc Hdoc) as (? & ? & _ & ->).
    by eexists. }
  split.
  - intros k Hk. unfold add_meta in Hk. rewrite Hc in Hk.
    destruct (forallb hashable all); [|done].
    rewrite get_bio_label_list_spec in Hk.
    by destruct (forallb is_str (list_set all)).
  - intros Hlabels.
    assert (forall v, v ∈ all <->
              exists path anns ins,
                (path, anns) ∈ samples /\ ins ∈ anns /\
                v = dict_get ins "label") as Hall.
    { intros v. rewrite (collect_labels_elem _ _ _ Hc v). split.
      - intros [Hnil|(doc & ls & Hdoc & Hls & Hv)].
        { by apply elem_of_nil in Hnil. }
        destruct (Hdocs doc Hdoc) as (path & anns & Hs & Hcol).
        rewrite Hcol in Hls. injection Hls as <-.
        apply list_elem_of_fmap in Hv as (ins & -> & Hins).
        by exists path, anns, ins.
      - intros (path & anns & ins & Hs & Hins & ->). right.
        destruct (Hsamples path anns Hs) as (doc & Hdoc & Hcol).
        exists doc, (column "label" anns). split; [done|]. split; [done|].
        apply list_elem_of_fmap. by exists ins. }
    assert (forallb is_str all = true) as Hstr.
    { apply forallb_is_str_spec. intros v Hv.
      apply Hall in Hv as (path & anns & ins & Hs & Hins & ->).
      destruct (Hlabels (path, anns) ins Hs Hins) as [s Hs'].
      exists s. by apply dict_get_str. }
    destruct (add_meta_success str_upper _ Hset docs all Hc Hstr)
      as (bio & _ & Hm).
    eexists. split; [exact Hm|]. split; [done|].
    intros s.
    destruct (add_meta_labels_elem _ _ Hset _ _ Hm) as (Helem & _ & _).
    rewrite Helem.
    assert ((exists doc ls,
               doc ∈ docs /\ instances doc !! "labels" = Some ls /\
               PyStr s ∈ ls) <-> PyStr s ∈ all) as ->.
    { rewrite (collect_labels_elem _ _ _ Hc). split; [by right|].
      intros [Hnil|?]; [by apply elem_of_nil in Hnil|done]. }
    rewrite Hall. split.
    + intros (path & anns & ins & Hs & Hins & Heq).
      exists (path, anns), ins. split; [done|]. split; [done|].
      by apply dict_get_str.
    + intros ([path anns] & ins & Hs & Hins & Hl).
      exists path, anns, ins. split; [done|]. split; [done|].
      symmetry. by apply dict_get_str.
Qed.

Lemma pack_then_add_meta_witness :
  exists m,
    add_meta ascii_upper insertion_order [doc_qo; doc_aA] = inr m /\
    data_list m = [doc_qo; doc_aA] /\
    (PyStr "A" ∈ labels (metainfo m) <->
     exists smp ins,
       smp ∈ [sample_qo; ("imgs/x.jpg", [ins_a; ins_A])] /\
       ins ∈ smp.2 /\ ins !! "label" = Some (PyStr "A")).
Proof.
  destruct (pack_then_add_meta imread_100x200 relpath_id "." ascii_upper
              insertion_order
              [sample_qo; ("imgs/x.jpg", [ins_a; ins_A])] [doc_qo; doc_aA]
              insertion_order_set_semantics) as [_ Hmeta].
  - repeat constructor; reflexivity.
  - destruct Hmeta as (m & Hm & Hdata & Hlabels).
    + intros smp ins Hsmp Hins. apply list_elem_of_In in Hsmp.
      destruct Hsmp as [<- | [<- | []]]; apply list_elem_of_In in Hins;
        destruct Hins as [<- | [<- | []]]; by eexists.
    + exists m. split; [exact Hm|]. split; [exact Hdata|]. apply Hlabels.
Defined.

Lemma collect_labels_empty sample acc :
  (forall s, s ∈ sample -> instances s !! "labels" = Some []) ->
  collect_labels sample acc = inr acc.
Proof.
  revert acc. induction sample as [|s rest IH]; intros acc Hall; [done|].
  cbn. rewrite (Hall s) by left. rewrite app_nil_r.
  apply IH. intros s' Hs'. apply Hall. by right.
Qed.

(** X19: with any iteration order of the set, documents that hold no
    label at all (no document, or documents of images without instances)
    give an envelope with an empty raw label list and two empty mappings;
    [add_meta] does not fail on them. *)
Theorem add_meta_no_labels
    (str_upper : string -> string) (list_set : list pyval -> list pyval)
    (sample : list packed_instances) :
  set_semantics list_set ->
  (forall s, s ∈ sample -> instances s !! "labels" = Some []) ->
  add_meta str_upper list_set sample =
    inr {| metainfo := {| labels := []; id2label := ∅; label2id := ∅ |};
           data_list := sample |}.
Proof.
  intros Hset Hall. unfold add_meta.
  rewrite (collect_labels_empty _ _ Hall). cbn [forallb].
  destruct (Hset [] eq_refl) as (Hsound & _ & _).
  destruct (list_set []) as [|x r] eqn:Hls; [done|].
  assert (x ∈ []) as Hx by (apply Hsound; left).
  by apply elem_of_nil in Hx.
Qed.

Lemma add_meta_no_labels_witness :
  add_meta ascii_upper insertion_order [doc_empty; doc_empty] =
    inr {| metainfo := {| labels := []; id2label := ∅; label2id := ∅ |};
           data_list := [doc_empty; doc_empty] |}.
Proof.
  apply (add_meta_no_labels ascii_upper insertion_order [doc_empty; doc_empty]
           insertion_order_set_semantics).
  intros s Hs. apply list_elem_of_In in Hs.
  destruct Hs as [<- | [<- | []]]; reflexivity.
Defined.

(** ** Other iteration orders of the set *)

Lemma existsb_key_eqb_rev x l :
  existsb (key_eqb x) (rev l) = existsb (key_eqb x) l.
Proof.
  destruct (existsb (key_eqb x) l) eqn:E.
  - apply existsb_key_eqb in E as (y & Hy & Heq).
    apply existsb_key_eqb. exists y. split; [|done].
    apply list_elem_of_In, in_rev. rewrite rev_involutive.
    by apply list_elem_of_In.
  - destruct (existsb (key_eqb x) (rev l)) eqn:E'; [|done].
    apply existsb_key_eqb in E' as (y & Hy & Heq).
    assert (existsb (key_eqb x) l = true) as E''; [|congruence].
    apply existsb_key_eqb. exists y. split; [|done].
    by apply list_elem_of_In, in_rev, list_elem_of_In.
Qed.

Lemma key_distinct_rev l : key_distinct l = true -> key_distinct (rev l) = true.
Proof.
  induction l as [|x r IH]; [done|].
  cbn. intros [Hx Hr]%andb_true_iff. apply key_distinct_snoc; [by apply IH|].
  rewrite existsb_key_eqb_rev. by apply negb_true_iff.
Qed.

(** Iterating in the reverse order is another order of a set. *)
Lemma reverse_order_set_semantics : set_semantics reverse_order.
Proof.
  intros l Hh.
  destruct (insertion_order_set_semantics l Hh) as (Hsound & Hcomplete & Hd).
  unfold reverse_order. repeat split.
  - intros x Hx. apply Hsound.
    by apply list_elem_of_In, in_rev, list_elem_of_In.
  - intros x Hx. destruct (Hcomplete x Hx) as (y & Hy & Heq).
    exists y. split; [|done].
    apply list_elem_of_In, in_rev. rewrite rev_involutive.
    by apply list_elem_of_In.
  - by apply key_distinct_rev.
Qed.

(** X20: what a run of [add_meta] takes from the iteration order of the
    set is the numbering only.  If [add_meta] returns an envelope with one
    order, it returns one with any other order, and the two have the same
    raw labels up to their order, the same tags in [label2id], as many
    ids, and the same [data_list]. *)
Theorem add_meta_order_independent
    (str_upper : string -> string)
    (list_set1 list_set2 : list pyval -> list pyval)
    (sample : list packed_instances) (m1 : meta_t) :
  set_semantics list_set1 ->
  set_semantics list_set2 ->
  add_meta str_upper list_set1 sample = inr m1 ->
  exists m2,
    add_meta str_upper list_set2 sample = inr m2 /\
    labels (metainfo m1) ≡ₚ labels (metainfo m2) /\
    (forall t, is_Some (label2id (metainfo m1) !! t) <->
               is_Some (label2id (metainfo m2) !! t)) /\
    size (id2label (metainfo m1)) = size (id2label (metainfo m2)) /\
    data_list m1 = data_list m2.
Proof.
  intros Hset1 Hset2 Hm1.
  destruct (add_meta_labels_elem _ _ Hset1 _ _ Hm1) as (Helem1 & Hstr1 & Hd1).
  apply add_meta_inr in Hm1 as (all & bio1 & Hc & Hh & Hbio1 & ->).
  cbn in *. apply get_bio_label_list_inr in Hbio1 as [_ ->].
  assert (forallb is_str all = true) as Hstr.
  { by rewrite <- (list_set_is_str _ _ Hset1 Hh). }
  destruct (add_meta_success str_upper _ Hset2 sample all Hc Hstr)
    as (bio2 & Hbio2 & Hm2).
  destruct (add_meta_labels_elem _ _ Hset2 _ _ Hm2) as (Helem2 & Hstr2 & Hd2).
  eexists. split; [exact Hm2|]. cbn in *.
  apply get_bio_label_list_inr in Hbio2 as [_ ->].
  assert (forall v, v ∈ list_set1 all <-> v ∈ list_set2 all) as Hsame.
  { intros v. by rewrite Helem1, Helem2. }
  assert (list_set1 all ≡ₚ list_set2 all) as Hperm.
  { apply NoDup_Permutation; [| |done];
      by apply key_distinct_NoDup; [|apply str_labels_hashable]. }
  assert (others (list_set1 all) = others (list_set2 all)) as Hothers.
  { pose proof (others_le_one _ Hd1). pose proof (others_le_one _ Hd2).
    pose proof (others_pos (list_set1 all)) as Hp1.
    pose proof (others_pos (list_set2 all)) as Hp2.
    rewrite Hsame in Hp1.
    destruct (others (list_set1 all)) as [|[|?]],
             (others (list_set2 all)) as [|[|?]]; try lia.
    - exfalso. apply (proj1 Hp1); [|done]. apply Hp2. lia.
    - exfalso. apply (proj1 Hp2); [|done]. apply Hp1. lia. }
  split; [done|]. split; [|split; [|done]].
  - intros t. rewrite !label2id_is_Some, !elem_of_app, !elem_of_replicate.
    rewrite !elem_of_tags_of, Hothers.
    by setoid_rewrite Hsame.
  - rewrite !dict_of_enumerate_size, !length_app, !length_replicate.
    pose proof (length_tags_of str_upper _ Hstr1).
    pose proof (length_tags_of str_upper _ Hstr2).
    apply Permutation_length in Hperm. lia.
Qed.

Lemma add_meta_order_independent_witness :
  exists m1 m2,
    add_meta ascii_upper insertion_order [doc_qa] = inr m1 /\
    add_meta ascii_upper reverse_order [doc_qa] = inr m2 /\
    id2label (metainfo m1) !! 0 = Some "B-QUESTION" /\
    id2label (metainfo m2) !! 0 = Some "B-ANSWER" /\
    size (id2label (metainfo m1)) = size (id2label (metainfo m2)).
Proof.
  destruct (add_meta_order_independent ascii_upper insertion_order
              reverse_order [doc_qa] _ insertion_order_set_semantics
              reverse_order_set_semantics eq_refl)
    as (m2 & Hm2 & _ & _ & Hsize & _).
  eexists _, m2. split; [reflexivity|]. split; [exact Hm2|].
  split; [reflexivity|]. split; [|exact Hsize].
  vm_compute in Hm2. injection Hm2 as <-. reflexivity.
Defined.

(** ** The runs of [add_meta] *)

Section RunFacts.
Variable str_upper : string -> string.
Variable sample : list packed_instances.

Lemma final_no_step s l s' : final s -> step str_upper sample s l s' -> False.
Proof. intros Hf Hs. by destruct Hs. Qed.

(** A state has silent steps or labelled steps, never both. *)
Lemma step_silent_or_choice s s1 org s2 :
  step str_upper sample s None s1 ->
  step str_upper sample s (Some org) s2 -> False.
Proof.
  intros H1 H2. inversion H2; subst. inversion H1; subst. congruence.
Qed.

(** A step with a given label has one target. *)
Lemma step_deterministic s l s1 s2 :
  step str_upper sample s l s1 -> step str_upper sample s l s2 -> s1 = s2.
Proof.
  intros H1 H2.
  destruct H1; inversion H2; subst; try congruence.
Qed.

Lemma steps_deterministic s tr out1 out2 :
  steps str_upper sample s tr out1 -> final out1 ->
  steps str_upper sample s tr out2 -> final out2 ->
  out1 = out2.
Proof.
  intros H1. revert out2.
  induction H1 as [s|s s' s'' tr Hstep Hrest IH|s org s' s'' tr Hstep Hrest IH];
    intros out2 Hf1 H2 Hf2.
  - inversion H2; subst; [done|by destruct (final_no_step _ _ _ Hf1 H)].
  - inversion H2; subst.
    + by destruct (final_no_step _ _ _ Hf2 Hstep).
    + rewrite (step_deterministic _ _ _ _ Hstep H) in *. by apply IH.
    + by destruct (step_silent_or_choice _ _ _ _ Hstep H).
  - inversion H2; subst.
    + by destruct (step_silent_or_choice _ _ _ _ H Hstep).
    + rewrite (step_deterministic _ _ _ _ Hstep H3) in *. by apply IH.
Qed.

Lemma steps_trans s tr1 s' tr2 s'' :
  steps str_upper sample s tr1 s' -> steps str_upper sample s' tr2 s'' ->
  steps str_upper sample s (tr1 ++ tr2) s''.
Proof.
  induction 1 as [| |s org ? ? ? ? ? IH]; intros H2; cbn.
  - done.
  - eapply steps_silent; eauto.
  - eapply steps_choice; eauto.
Qed.

(** The first loop runs as [collect_labels] computes. *)
Lemma collect_steps todo acc :
  steps str_upper sample (Collecting todo acc) []
    (match collect_labels todo acc with
     | inr all => Deduping all
     | inl e => Raised e
     end).
Proof.
  revert acc. induction todo as [|s rest IH]; intros acc; cbn.
  - eapply steps_silent; [apply step_collected|apply steps_refl].
  - destruct (instances s !! "labels") as [ls|] eqn:Hls.
    + eapply steps_silent; [by apply step_collect|apply IH].
    + eapply steps_silent; [by apply step_collect_missing|apply steps_refl].
Qed.

(** The loop of [get_bio_label_list] runs as [bio_loop] computes. *)
Lemma expand_steps org todo bio :
  steps str_upper sample (Expanding org todo bio) []
    (match bio_loop str_upper todo bio with
     | inr b =>
         Returned
           {| metainfo :=
                {| labels := org;
                   id2label := dict_of (enumerate b);
                   label2id := dict_of (prod_swap <$> enumerate b) |};
              data_list := sample |}
     | inl e => Raised e
     end).
Proof.
  revert bio. induction todo as [|label rest IH]; intros bio; cbn.
  - eapply steps_silent; [apply step_return|apply steps_refl].
  - destruct (eq_str label "other") eqn:Ho.
    + eapply steps_silent; [by apply step_other|apply IH].
    + destruct (py_upper str_upper label) as [e|u] eqn:Hu.
      * eapply steps_silent; [by apply step_no_upper|apply steps_refl].
      * eapply steps_silent; [by apply step_tag|apply IH].
Qed.

(** Every call has a run: with any iteration order of the set, what the
    function [add_meta] computes is the end of a run, and the run took the
    order of that set. *)
Lemma add_meta_is_run (list_set : list pyval -> list pyval) :
  set_semantics list_set ->
  run str_upper sample (trace_of list_set sample)
    (outcome_state (add_meta str_upper list_set sample)).
Proof.
  intros Hset. unfold run, trace_of, add_meta, all_labels.
  pose proof (collect_steps sample []) as Hc.
  destruct (collect_labels sample []) as [e|all]; [done|].
  destruct (forallb hashable all) eqn:Hh.
  - pose proof (expand_steps (list_set all) (list_set all) []) as He.
    fold (get_bio_label_list str_upper (list_set all)) in He.
    split.
    + refine (steps_trans _ [] _ [list_set all] _ Hc _).
      eapply steps_choice; [apply step_set; [done|by apply Hset]|].
      by destruct (get_bio_label_list str_upper (list_set all)).
    + by destruct (get_bio_label_list str_upper (list_set all)).
  - split; [|done]. refine (steps_trans _ [] _ [] _ Hc _).
    eapply steps_silent; [by apply step_unhashable|apply steps_refl].
Qed.

Lemma collect_steps_inv todo acc tr out :
  steps str_upper sample (Collecting todo acc) tr out -> final out ->
  match collect_labels todo acc with
  | inl e => tr = [] /\ out = Raised e
  | inr all => steps str_upper sample (Deduping all) tr out
  end.
Proof.
  revert acc. induction todo as [|s rest IH]; intros acc Hsteps Hfinal.
  - inversion Hsteps as [|? ? ? ? Hstep Hrest|? ? ? ? ? Hstep]; subst.
    + done.
    + by inversion Hstep; subst.
    + inversion Hstep.
  - inversion Hsteps as [|? ? ? ? Hstep Hrest|? ? ? ? ? Hstep]; subst.
    + done.
    + cbn. inversion Hstep as [? ? ? ? Hls|? ? ? Hls| | | | | | |]; subst;
        rewrite Hls.
      * by apply IH.
      * inversion Hrest as [|? ? ? ? Hstep'|? ? ? ? ? Hstep']; subst;
          [done|inversion Hstep'|inversion Hstep'].
    + inversion Hstep.
Qed.

Lemma expand_steps_inv org todo bio tr out :
  steps str_upper sample (Expanding org todo bio) tr out -> final out ->
  tr = [] /\
  out = match bio_loop str_upper todo bio with
        | inr b =>
            Returned
              {| metainfo :=
                   {| labels := org;
                      id2label := dict_of (enumerate b);
                      label2id := dict_of (prod_swap <$> enumerate b) |};
                 data_list := sample |}
        | inl e => Raised e
        end.
Proof.
  intros Hsteps Hfinal.
  assert (tr = []) as ->.
  { clear Hfinal. remember (Expanding org todo bio) as s eqn:Hs.
    revert todo bio Hs.
    induction Hsteps as [|? ? ? ? Hstep Hrest IH|? ? ? ? ? Hstep];
      intros todo bio ->; [done| |inversion Hstep].
    inversion Hstep; subst; try (by eapply IH).
    + inversion Hrest as [|? ? ? ? Hstep'|? ? ? ? ? Hstep']; subst;
        [done|inversion Hstep'|inversion Hstep'].
    + inversion Hrest as [|? ? ? ? Hstep'|? ? ? ? ? Hstep']; subst;
        [done|inversion Hstep'|inversion Hstep']. }
  split; [done|].
  eapply steps_deterministic; [exact Hsteps|done|apply expand_steps|].
  by destruct (bio_loop str_upper todo bio).
Qed.

(** And a run is nothing else: it ends as the function [add_meta] computes
    with a set that lists the labels in the order the run took, and it
    took that order from a listing of the set. *)
Lemma run_is_add_meta tr out (list_set : list pyval -> list pyval) :
  run str_upper sample tr out ->
  (forall all org,
     all_labels sample = inr all -> org ∈ tr -> list_set all = org) ->
  out = outcome_state (add_meta str_upper list_set sample) /\
  (forall all org,
     all_labels sample = inr all -> org ∈ tr ->
     tr = [org] /\ set_listing all org).
Proof.
  intros [Hsteps Hfinal] Hls. unfold add_meta, all_labels in *.
  apply collect_steps_inv in Hsteps; [|done].
  destruct (collect_labels sample []) as [e|all].
  { destruct Hsteps as [-> ->]. split; [done|].
    by intros ? ? _ ?%elem_of_nil. }
  inversion Hsteps as [|? ? ? ? Hstep Hrest|? org ? ? tr' Hstep Hrest]; subst.
  - done.
  - inversion Hstep as [| | |? Hh| | | | |]; subst. rewrite Hh.
    inversion Hrest as [|? ? ? ? Hstep'|? ? ? ? ? Hstep']; subst;
      [|inversion Hstep'|inversion Hstep'].
    split; [done|]. by intros ? ? _ ?%elem_of_nil.
  - inversion Hstep as [| | | |? ? Hh Hlist| | | |]; subst. rewrite Hh.
    apply expand_steps_inv in Hrest as [-> ->]; [|done].
    rewrite (Hls all org eq_refl) by left.
    split.
    + unfold get_bio_label_list.
      by destruct (bio_loop str_upper org []).
    + intros all' org' [= <-] ->%list_elem_of_singleton. done.
Qed.
End RunFacts.

(** C8: [add_meta] is deterministic but for the iteration order of the
    set.  Two runs of [add_meta] on the same documents in which the
    runtime lists the set of labels in the same order end in the same
    state: they return the same envelope, with the same [id2label] and
    [label2id], or they raise the same exception. *)
Theorem add_meta_runs_deterministic
    (str_upper : string -> string) (sample : list packed_instances)
    (tr : list (list pyval)) (out1 out2 : am_state) :
  run str_upper sample tr out1 ->
  run str_upper sample tr out2 ->
  out1 = out2.
Proof.
  intros [Hsteps1 Hfinal1] [Hsteps2 Hfinal2].
  by eapply steps_deterministic.
Qed.

Lemma add_meta_runs_deterministic_witness :
  exists out,
    run ascii_upper [doc_qo; doc_qa]
      [[PyStr "question"; PyStr "other"; PyStr "answer"]] out /\
    outcome_state (add_meta ascii_upper insertion_order [doc_qo; doc_qa])
      = out.
Proof.
  assert (exists out,
            run ascii_upper [doc_qo; doc_qa]
              [[PyStr "question"; PyStr "other"; PyStr "answer"]] out)
    as [out Hrun].
  { eexists. split.
    - eapply steps_silent; [by apply step_collect|].
      eapply steps_silent; [by apply step_collect|].
      eapply steps_silent; [apply step_collected|].
      eapply steps_choice.
      { apply step_set; [reflexivity|].
        exact (insertion_order_set_semantics
                 [PyStr "question"; PyStr "other"; PyStr "question";
                  PyStr "answer"] eq_refl). }
      eapply steps_silent; [by eapply step_tag|].
      eapply steps_silent; [by apply step_other|].
      eapply steps_silent; [by eapply step_tag|].
      eapply steps_silent; [apply step_return|].
      apply steps_refl.
    - exact I. }
  exists out. split; [exact Hrun|].
  apply (add_meta_runs_deterministic ascii_upper [doc_qo; doc_qa]
           [[PyStr "question"; PyStr "other"; PyStr "answer"]]);
    [|exact Hrun].
  exact (add_meta_is_run ascii_upper [doc_qo; doc_qa] insertion_order
           insertion_order_set_semantics).
Defined.

(** Without the same order the runs differ: on one document with the
    labels ['question'] and ['answer'] there is a run that gives
    ["B-QUESTION"] the id 0 and a run that gives it to ["B-ANSWER"]. *)
Example add_meta_runs_differ :
  exists m1 m2,
    run ascii_upper [doc_qa] [[PyStr "question"; PyStr "answer"]]
      (Returned m1) /\
    run ascii_upper [doc_qa] [[PyStr "answer"; PyStr "question"]]
      (Returned m2) /\
    id2label (metainfo m1) !! 0 = Some "B-QUESTION" /\
    id2label (metainfo m2) !! 0 = Some "B-ANSWER".
Proof.
  eexists _, _. split; [|split].
  - exact (add_meta_is_run ascii_upper [doc_qa] insertion_order
             insertion_order_set_semantics).
  - exact (add_meta_is_run ascii_upper [doc_qa] reverse_order
             reverse_order_set_semantics).
  - split; reflexivity.
Qed.
